(** * A shunting-yard calculator: expression engine and input state machine

    Shallow embedding of [app.js]: the tokenizer, the infix-to-postfix
    converter, the postfix evaluator, the [compute] pipeline and the [press]
    transition function over the two globals [expr] and [display].

    JavaScript strings are sequences of UTF-16 code units, numbers are IEEE 754
    binary64 values (Rocq's primitive floats), and a variable may hold either. *)

From Stdlib Require Import String Ascii.
From Stdlib Require Import ZArith NArith List Bool Lia Permutation.
From Stdlib Require Uint63.
From Stdlib Require Import PrimFloat FloatOps SpecFloat.
From Stdlib Require Import DecimalPos.
Import ListNotations.

(** ** Strings *)

(** A code unit and a string of code units. *)
Definition char := N.
Definition jsstring := list char.

(** An ASCII literal as a JavaScript string. *)
Definition str (s : string) : jsstring :=
  map N_of_ascii (list_ascii_of_string s).
Arguments str s%_string.

(** The four operator glyphs of the source: U+FF0B, U+2212, U+00D7, U+00F7,
    one code unit each; and the ASCII characters the code looks at. *)
Definition PLUS : char := 0xFF0B%N.
Definition MINUS : char := 0x2212%N.
Definition TIMES : char := 0xD7%N.
Definition DIVIDE : char := 0xF7%N.
Definition PERCENT : char := 0x25%N.
Definition DOT : char := 0x2E%N.
Definition ZERO : char := 0x30%N.
Definition NINE : char := 0x39%N.

Definition OPS : jsstring := [PLUS; MINUS; TIMES; DIVIDE].

Fixpoint streq (a b : jsstring) : bool :=
  match a, b with
  | [], [] => true
  | x :: a', y :: b' => N.eqb x y && streq a' b'
  | _, _ => false
  end.

(** [s.startsWith(p)] *)
Fixpoint startsWith (s p : jsstring) : bool :=
  match p, s with
  | [], _ => true
  | x :: p', y :: s' => N.eqb x y && startsWith s' p'
  | _ :: _, [] => false
  end.

(** [s.includes(sub)]: [sub] occurs in [s] as a contiguous run. *)
Fixpoint includes (s sub : jsstring) : bool :=
  startsWith s sub ||
  match s with
  | [] => false
  | _ :: s' => includes s' sub
  end.

(** [s.at(-1)] and [s.at(-2)]; [None] is [undefined]. *)
Definition at_m1 (s : jsstring) : option char := nth_error (rev s) 0.
Definition at_m2 (s : jsstring) : option char := nth_error (rev s) 1.

(** [s.slice(0, -1)] *)
Definition slice_0_m1 (s : jsstring) : jsstring := removelast s.

(** [s.endsWith(c)] for a one-unit [c]. *)
Definition endsWith (s : jsstring) (c : char) : bool :=
  match at_m1 s with
  | Some x => N.eqb x c
  | None => false
  end.

(** Truthiness of a string. *)
Definition nonempty (s : jsstring) : bool :=
  match s with
  | [] => false
  | _ :: _ => true
  end.

(** [a <= b] on strings: the order of the code units, a proper prefix first. *)
Fixpoint str_leb (a b : jsstring) : bool :=
  match a, b with
  | [], _ => true
  | _ :: _, [] => false
  | x :: a', y :: b' => N.ltb x y || (N.eqb x y && str_leb a' b')
  end.

(** [const isOp = c => OPS.includes(c)]. *)
Definition isOp (c : jsstring) : bool := includes OPS c.

(** [isOp] of the result of [at]: [includes(undefined)] looks for the text
    "undefined", which the glyphs do not contain. *)
Definition isOp_at (c : option char) : bool :=
  match c with
  | Some x => isOp [x]
  | None => false
  end.

(** ** The regular expressions of the source *)

Definition is_digit (c : char) : bool := N.leb ZERO c && N.leb c NINE.

(** [/[0-9.]/.test(ch)] for a one-unit [ch]. *)
Definition is_digit_or_dot (c : char) : bool := is_digit c || N.eqb c DOT.

(** [/[0-9]$/.test(s)] *)
Definition ends_in_digit (s : jsstring) : bool :=
  match at_m1 s with
  | Some c => is_digit c
  | None => false
  end.

Fixpoint skip_digits (s : jsstring) : jsstring :=
  match s with
  | c :: s' => if is_digit c then skip_digits s' else s
  | [] => []
  end.

Definition skip_opt (c : char) (s : jsstring) : jsstring :=
  match s with
  | x :: s' => if N.eqb x c then s' else s
  | [] => []
  end.

(** [[0-9]*\.?[0-9]*$] and [[0-9]*\.?[0-9]*%?$] tried at the start of [s].
    Each piece is greedy; giving characters back never helps, because what
    follows a run of digits in these patterns cannot match a digit. *)
Definition number_re (s : jsstring) : bool :=
  negb (nonempty (skip_digits (skip_opt DOT (skip_digits s)))).

Definition number_percent_re (s : jsstring) : bool :=
  negb (nonempty (skip_opt PERCENT (skip_digits (skip_opt DOT (skip_digits s))))).

(** [s.match(re)[1]] for an end-anchored [re] whose only group is the whole
    pattern: the match at the leftmost start position that succeeds.  Both
    patterns match the empty string, so the result is never [null]. *)
Fixpoint match_end (re : jsstring -> bool) (s : jsstring) : jsstring :=
  if re s then s
  else match s with
       | [] => []
       | _ :: s' => match_end re s'
       end.

(** ** Numbers *)

(** *** The Number value of a non-negative rational

    [nearest n d] is the binary64 value nearest to [n / d] ([0 <= n], [0 < d]),
    ties to the even significand, overflowing to [infinity]: the rounding
    ECMAScript prescribes for a numeric literal.  The significand and the
    exponent are computed exactly on integers. *)
Definition scaled_ltb (n d e bound : Z) : bool :=
  if (0 <=? e)%Z then (n <? bound * (d * 2 ^ e))%Z
  else (n * 2 ^ (- e) <? bound * d)%Z.

Definition nearest (n d : Z) : float :=
  if (n =? 0)%Z then zero
  else
    let e0 := (Z.log2 n - Z.log2 d - 52)%Z in
    let e1 := if scaled_ltb n d e0 (2 ^ 52) then (e0 - 1)%Z else e0 in
    let e := Z.max e1 (-1074) in
    if (971 <? e)%Z then infinity
    else
      let num := if (0 <=? e)%Z then n else (n * 2 ^ (- e))%Z in
      let den := if (0 <=? e)%Z then (d * 2 ^ e)%Z else d in
      let q := (num / den)%Z in
      let r := (num mod den)%Z in
      let q' := match (2 * r ?= den)%Z with
                | Lt => q
                | Gt => (q + 1)%Z
                | Eq => if Z.even q then q else (q + 1)%Z
                end in
      FloatOps.Z.ldexp (of_uint63 (Uint63.of_Z q')) e.

(** *** [Number(t)] on the strings the tokenizer emits

    A run of digits with at most one point and at least one digit is a decimal
    literal; the empty string is [0]; every other string made of digits,
    points, operator glyphs and percent signs is [NaN].  (Signs, exponents,
    white space, radix prefixes and the word Infinity, which [Number] also
    accepts, are outside what [tokenize] can produce.) *)
Fixpoint take_digits (s : jsstring) : jsstring :=
  match s with
  | c :: s' => if is_digit c then c :: take_digits s' else []
  | [] => []
  end.

Definition digits_value (s : jsstring) : Z :=
  fold_left (fun acc c => (10 * acc + (Z.of_N c - 48))%Z) s 0%Z.

Definition ToNumber (s : jsstring) : float :=
  let ip := take_digits s in
  match skip_digits s with
  | [] => nearest (digits_value ip) 1
  | c :: s' =>
      if N.eqb c DOT then
        let fp := take_digits s' in
        if nonempty (skip_digits s') then nan
        else if nonempty ip || nonempty fp then
          nearest (digits_value (ip ++ fp)) (10 ^ Z.of_nat (length fp))
        else nan
      else nan
  end.

(** [isNaN(t)] for a string [t]. *)
Definition isNaN (t : jsstring) : bool := is_nan (ToNumber t).

(** [isFinite(x)] for a number [x]. *)
Definition isFinite (x : float) : bool := is_finite x.

(** Truthiness of a number: neither a zero nor [NaN]. *)
Definition truthy_num (x : float) : bool := negb (is_zero x || is_nan x).

Definition EPSILON : float := Eval compute in FloatOps.Z.ldexp one (-52).
Definition f_100 : float := 100%float.
Definition f_1e12 : float := 1e12%float.

(** *** [Math.round]

    The integer nearest to [x], the larger one at a tie; the sign of [x] is
    kept when the result is zero.  A finite value whose exponent is not
    negative is an integer already. *)
Definition float_of_Z (s : bool) (z : Z) : float :=
  let f := of_uint63 (Uint63.of_Z z) in
  if s then (- f)%float else f.

Definition Math_round (x : float) : float :=
  match Prim2SF x with
  | S754_finite s m e =>
      if (0 <=? e)%Z then x
      else
        let v := if s then Z.neg m else Z.pos m in
        let den := (2 ^ (- e))%Z in
        let r := ((2 * v + den) / (2 * den))%Z in
        float_of_Z s (Z.abs r)
  | _ => x
  end.

(** *** [String(x)]: Number::toString, radix 10 *)

Fixpoint uint_chars (u : Decimal.uint) : jsstring :=
  match u with
  | Decimal.Nil => []
  | Decimal.D0 u' => 48%N :: uint_chars u'
  | Decimal.D1 u' => 49%N :: uint_chars u'
  | Decimal.D2 u' => 50%N :: uint_chars u'
  | Decimal.D3 u' => 51%N :: uint_chars u'
  | Decimal.D4 u' => 52%N :: uint_chars u'
  | Decimal.D5 u' => 53%N :: uint_chars u'
  | Decimal.D6 u' => 54%N :: uint_chars u'
  | Decimal.D7 u' => 55%N :: uint_chars u'
  | Decimal.D8 u' => 56%N :: uint_chars u'
  | Decimal.D9 u' => 57%N :: uint_chars u'
  end.

(** The decimal digits of a positive integer. *)
Definition decimal (p : positive) : jsstring := uint_chars (Pos.to_uint p).

(** [x < 10^n] for the rational [x = num / den]. *)
Definition lt_pow10 (num den n : Z) : bool :=
  if (0 <=? n)%Z then (num <? 10 ^ n * den)%Z
  else (num * 10 ^ (- n) <? den)%Z.

(** The [n] with [10^(n-1) <= x < 10^n], searched upwards. *)
Fixpoint decimal_exponent (fuel : nat) (num den n : Z) : Z :=
  match fuel with
  | O => n
  | S fuel' =>
      if lt_pow10 num den n then n
      else decimal_exponent fuel' num den (n + 1)%Z
  end.

(** The Number value of [s * 10^p]. *)
Definition of_decimal (s p : Z) : float :=
  if (0 <=? p)%Z then nearest (s * 10 ^ p) 1 else nearest s (10 ^ (- p)).

(** The integers [s] and [n] of Number::toString for [x = num / den > 0]:
    [s] has [k] digits, [s * 10^(n-k)] rounds to [x], [k] is as small as
    possible and, for that [k], [s * 10^(n-k)] is as close to [x] as possible
    (the even [s] at a tie).  For each [k] only the two [k]-digit decimals
    around [x] can qualify. *)
Fixpoint shortest (fuel : nat) (x : float) (num den n0 k : Z) : Z * Z :=
  let p := (n0 - k)%Z in
  let a := if (0 <=? p)%Z then num else (num * 10 ^ (- p))%Z in
  let b := if (0 <=? p)%Z then (den * 10 ^ p)%Z else den in
  let lo := (a / b)%Z in
  let hi := (lo + 1)%Z in
  let r := (a mod b)%Z in
  let ok_lo := (of_decimal lo p =? x)%float in
  let ok_hi := (of_decimal hi p =? x)%float in
  let pick (s : Z) := if (s =? 10 ^ k)%Z then (1%Z, (n0 + 1)%Z) else (s, n0) in
  match fuel with
  | O => pick lo
  | S fuel' =>
      if ok_lo && ok_hi then
        match (2 * r ?= b)%Z with
        | Lt => pick lo
        | Gt => pick hi
        | Eq => if Z.even lo then pick lo else pick hi
        end
      else if ok_lo then pick lo
      else if ok_hi then pick hi
      else shortest fuel' x num den n0 (k + 1)%Z
  end.

(** The digits of [s] without trailing zeros count as [k]; [n] places the
    decimal point. *)
Definition format (ds : jsstring) (n : Z) : jsstring :=
  let k := Z.of_nat (length ds) in
  if ((-6 <? n) && (n <=? 21))%Z then
    if (k <=? n)%Z then ds ++ repeat ZERO (Z.to_nat (n - k))
    else if (0 <? n)%Z then
      firstn (Z.to_nat n) ds ++ [DOT] ++ skipn (Z.to_nat n) ds
    else str "0." ++ repeat ZERO (Z.to_nat (- n)) ++ ds
  else
    let c := (n - 1)%Z in
    let sign := if (c <? 0)%Z then str "-" else str "+" in
    let ex := uint_chars (N.to_uint (Z.to_N (Z.abs c))) in
    match ds with
    | [] => []
    | [d] => [d] ++ str "e" ++ sign ++ ex
    | d :: rest => [d] ++ [DOT] ++ rest ++ str "e" ++ sign ++ ex
    end.

Definition positive_to_string (x : float) (m : positive) (e : Z) : jsstring :=
  let num := if (0 <=? e)%Z then (Z.pos m * 2 ^ e)%Z else Z.pos m in
  let den := if (0 <=? e)%Z then 1%Z else (2 ^ (- e))%Z in
  let n0 := decimal_exponent 640 num den (-323) in
  let (s, n) := shortest 17 x num den n0 1 in
  format (decimal (Z.to_pos s)) n.

Definition ToString (x : float) : jsstring :=
  match Prim2SF x with
  | S754_nan => str "NaN"
  | S754_zero _ => str "0"
  | S754_infinity s => if s then str "-Infinity" else str "Infinity"
  | S754_finite s m e =>
      (if s then str "-" else []) ++ positive_to_string (abs x) m e
  end.


(** ** Values *)

(** What a variable of the program holds: a number or a string. *)
Inductive value : Type :=
  | VNum (x : float)
  | VStr (s : jsstring).

(** [!v] is [negb (truthy v)]. *)
Definition truthy (v : value) : bool :=
  match v with
  | VNum x => truthy_num x
  | VStr s => nonempty s
  end.

(** ** Tokenizer *)

(** One turn of the loop of [tokenize] over the pair [(tokens, buf)]. *)
Definition tokenize_step (acc : list jsstring * jsstring) (ch : char)
  : list jsstring * jsstring :=
  let (tokens, buf) := acc in
  if is_digit_or_dot ch then (tokens, buf ++ [ch])
  else if isOp [ch] || N.eqb ch PERCENT then
    ((if nonempty buf then tokens ++ [buf] else tokens) ++ [[ch]], [])
  else (tokens, buf).

Definition tokenize (s : jsstring) : list jsstring :=
  let (tokens, buf) := fold_left tokenize_step s ([], []) in
  if nonempty buf then tokens ++ [buf] else tokens.

(** ** Infix to postfix *)

(** The table [prec]; [None] is [undefined].  A token is a run of digits and
    points or a single glyph (lemma [tokenize_shape] below), so no lookup
    reaches a property inherited from [Object.prototype]. *)
Definition prec (t : jsstring) : option Z :=
  if streq t [PLUS] then Some 1%Z
  else if streq t [MINUS] then Some 1%Z
  else if streq t [TIMES] then Some 2%Z
  else if streq t [DIVIDE] then Some 2%Z
  else if streq t [PERCENT] then Some 3%Z
  else None.

(** The table [rightAssoc], read as a condition. *)
Definition rightAssoc (t : jsstring) : bool := streq t [PERCENT].

(** [a > b] and [a >= b] on table entries: false when one is [undefined]. *)
Definition gt_entry (a b : option Z) : bool :=
  match a, b with
  | Some x, Some y => (y <? x)%Z
  | _, _ => false
  end.

Definition ge_entry (a b : option Z) : bool :=
  match a, b with
  | Some x, Some y => (y <=? x)%Z
  | _, _ => false
  end.

(** [while (op.length && cond(op.at(-1))) out.push(op.pop())].
    The array [op] is kept with its last element first. *)
Fixpoint pop_while (cond : jsstring -> bool) (out : list value)
  (op : list jsstring) : list value * list jsstring :=
  match op with
  | [] => (out, [])
  | top :: op' =>
      if cond top then pop_while cond (out ++ [VStr top]) op'
      else (out, op)
  end.

(** One turn of the loop of [toRPN] over the pair [(out, op)]. *)
Definition toRPN_step (acc : list value * list jsstring) (t : jsstring)
  : list value * list jsstring :=
  let (out, op) := acc in
  if negb (isNaN t) then (out ++ [VNum (ToNumber t)], op)
  else if streq t [PERCENT] then
    let (out', op') :=
      pop_while (fun top => gt_entry (prec top) (prec t)) out op in
    (out', t :: op')
  else
    let (out', op') :=
      pop_while
        (fun top => negb (rightAssoc t) && ge_entry (prec top) (prec t))
        out op in
    (out', t :: op').

Definition toRPN (tokens : list jsstring) : list value :=
  let (out, op) := fold_left toRPN_step tokens ([], []) in
  fst (pop_while (fun _ => true) out op).

(** ** Postfix evaluator *)

(** The loop of [evalRPN] from the stack [st], kept with its last element
    first; [None] is a [return NaN] from inside the loop. *)
Fixpoint evalRPN_loop (rpn : list value) (st : list float)
  : option (list float) :=
  match rpn with
  | [] => Some st
  | VNum x :: rpn' => evalRPN_loop rpn' (x :: st)
  | VStr t :: rpn' =>
      if streq t [PERCENT] then
        match st with
        | a :: st' => evalRPN_loop rpn' ((a / f_100)%float :: st')
        | [] => evalRPN_loop rpn' [nan]
        end
      else
        match st with
        | b :: a :: st' =>
            if streq t [PLUS] then evalRPN_loop rpn' ((a + b)%float :: st')
            else if streq t [MINUS] then
              evalRPN_loop rpn' ((a - b)%float :: st')
            else if streq t [TIMES] then
              evalRPN_loop rpn' ((a * b)%float :: st')
            else if streq t [DIVIDE] then
              evalRPN_loop rpn'
                ((if (b =? zero)%float then nan else (a / b)%float) :: st')
            else None
        | _ => None
        end
  end.

(** [st.length ? st[0] : NaN]: [st[0]] is the value pushed first. *)
Definition final_value (st : list float) : float :=
  match rev st with
  | [] => nan
  | v :: _ => v
  end.

Definition evalRPN (rpn : list value) : float :=
  match evalRPN_loop rpn [] with
  | None => nan
  | Some st => final_value st
  end.

(** ** Compute pipeline *)

Definition Err : jsstring := str "Err".

(** [tokenize] applied to a number: its [length] is [undefined], the loop
    body never runs. *)
Definition tokenize_value (s : value) : list jsstring :=
  match s with
  | VStr t => tokenize t
  | VNum _ => []
  end.

Definition compute (s : value) : value :=
  if negb (truthy s) then VNum zero
  else
    let tokens := tokenize_value s in
    let rpn := toRPN tokens in
    let res := evalRPN rpn in
    if negb (isFinite res) then VStr Err
    else
      let res' := (Math_round ((res + EPSILON) * f_1e12) / f_1e12)%float in
      VStr (ToString res').

(** ** Input state machine *)

(** The two globals. *)
Record state : Type := mkState { expr : value; display : value }.

(** [let expr = ''; let display = '0';] *)
Definition init : state := mkState (VStr []) (VStr (str "0")).

Definition getCurrentNumber (s : jsstring) : jsstring := match_end number_re s.

Definition tailDisplay (s : jsstring) : jsstring :=
  match at_m1 s with
  | Some last =>
      if isOp [last] || N.eqb last PERCENT then [last]
      else
        let m1 := match_end number_percent_re s in
        if nonempty m1 then m1 else s
  | None =>
      let m1 := match_end number_percent_re s in
      if nonempty m1 then m1 else s
  end.

(** [k >= '0' && k <= '9'] *)
Definition digit_key (k : jsstring) : bool :=
  str_leb [ZERO] k && str_leb k [NINE].

(** [press(k)] as a function of the globals.  [updateUI] only copies them to
    the page.  When [expr] holds a number (which only [compute] of a falsy
    argument can store) a string method called on it throws a TypeError
    before anything is assigned, and the globals keep their values. *)
Definition press (k : jsstring) (st : state) : state :=
  if streq k (str "C") then init
  else if streq k (str "DEL") then
    match expr st with
    | VStr e =>
        let e' := if nonempty e then slice_0_m1 e else e in
        mkState (VStr e')
          (VStr (if nonempty e' then tailDisplay e' else str "0"))
    | VNum n =>
        if truthy_num n then st
        else mkState (VNum n) (VStr (str "0"))
    end
  else if streq k (str "=") then
    let result := compute (if truthy (expr st) then expr st else display st) in
    match result with
    | VStr r => mkState (if streq r Err then VStr [] else result) result
    | VNum _ => mkState result result
    end
  else if streq k [DOT] then
    match expr st with
    | VStr e =>
        let tail := getCurrentNumber e in
        if includes tail [DOT] then st
        else
          let e' :=
            e ++ (if nonempty e && ends_in_digit e then [DOT] else str "0.") in
          mkState (VStr e') (VStr (tailDisplay e'))
    | VNum _ => st
    end
  else if streq k [PERCENT] then
    let text := match expr st with VStr e => e | VNum n => ToString n end in
    if ends_in_digit text then
      let e' := text ++ [PERCENT] in
      mkState (VStr e') (VStr (tailDisplay e'))
    else st
  else if isOp k then
    if negb (truthy (expr st)) then
      if streq k [MINUS] then
        mkState (VStr ([ZERO] ++ [MINUS])) (VStr [MINUS])
      else st
    else
      match expr st with
      | VStr e =>
          let e1 := if isOp_at (at_m1 e) then slice_0_m1 e else e in
          let e2 := if endsWith e1 DOT then slice_0_m1 e1 else e1 in
          mkState (VStr (e2 ++ k)) (VStr k)
      | VNum _ => st
      end
  else if digit_key k then
    match expr st with
    | VStr e =>
        let e' :=
          if endsWith e ZERO
             && (Nat.eqb (length e) 1 || isOp_at (at_m2 e))
             && negb (streq k [ZERO])
          then slice_0_m1 e ++ k
          else e ++ k in
        mkState (VStr e') (VStr (tailDisplay e'))
    | VNum _ => st
    end
  else st.

(** A finite sequence of [press] calls, first key first. *)
Definition presses (ks : list jsstring) (st : state) : state :=
  fold_left (fun s k => press k s) ks st.

(** The logical key alphabet. *)
Definition digit_keys : list jsstring :=
  map (fun c => [c]) [48; 49; 50; 51; 52; 53; 54; 55; 56; 57]%N.

Definition operator_keys : list jsstring :=
  [[PLUS]; [MINUS]; [TIMES]; [DIVIDE]].

Definition logical_keys : list jsstring :=
  digit_keys ++ [[DOT]] ++ operator_keys
  ++ [[PERCENT]; str "="; str "C"; str "DEL"].

Definition logical_key (k : jsstring) : bool := existsb (streq k) logical_keys.

(** ** Well-formed prefixes of an infix expression

    An expression is [operand (operator operand)*], an operand a numeric
    literal followed by percent signs.  A prefix of one either awaits an
    operand (at the start, or after an operator) or has just completed one. *)
Fixpoint infix_prefix (awaiting : bool) (tokens : list jsstring) : bool :=
  match tokens with
  | [] => true
  | t :: rest =>
      if negb (isNaN t) then awaiting && infix_prefix false rest
      else if streq t [PERCENT] then negb awaiting && infix_prefix false rest
      else if existsb (streq t) operator_keys then
        negb awaiting && infix_prefix true rest
      else false
  end.

Definition well_formed_prefix (tokens : list jsstring) : bool :=
  infix_prefix true tokens.

(** ** Predicates of the statements *)

(** The number of decimal points in a string. *)
Definition dots (s : jsstring) : nat := count_occ N.eq_dec s DOT.

(** No two decimal points side by side. *)
Definition no_double_dot (s : jsstring) : Prop :=
  forall a b, s <> a ++ [DOT; DOT] ++ b.


(** Both globals hold strings, the display is not empty and the buffer has no
    two decimal points side by side. *)
Definition string_state (st : state) : Prop :=
  exists e d,
    st = mkState (VStr e) (VStr d) /\ d <> [] /\ no_double_dot e.

(** Both globals hold strings and the display is not empty. *)
Definition shows_text (st : state) : Prop :=
  exists e d, st = mkState (VStr e) (VStr d) /\ d <> [].

(** A non-empty run of digits and points, or one operator glyph, or one
    percent sign. *)
Definition token_shape (t : jsstring) : Prop :=
  (t <> [] /\ Forall (fun c => is_digit_or_dot c = true) t)
  \/ (exists c, t = [c] /\ isOp [c] || N.eqb c PERCENT = true).

(** ** Token lists *)

(** The characters [tokenize] keeps: digits, the point, the four glyphs and
    the percent sign. *)
Definition token_char (c : char) : bool :=
  is_digit_or_dot c || (isOp [c] || N.eqb c PERCENT).

(** A literal token: a non-empty run of digits and points. *)
Definition literal (t : jsstring) : bool :=
  nonempty t && forallb is_digit_or_dot t.

(** A symbol token: one operator glyph or one percent sign. *)
Definition symbol (t : jsstring) : bool :=
  match t with
  | [c] => isOp [c] || N.eqb c PERCENT
  | _ => false
  end.

(** A list of literals and symbols in which no two literals are neighbours. *)
Fixpoint separated (toks : list jsstring) : bool :=
  match toks with
  | [] => true
  | t :: rest =>
      match rest with
      | [] => symbol t || literal t
      | u :: _ => (symbol t || (literal t && symbol u)) && separated rest
      end
  end.

(** What [tokenize] returns from the state its loop ends in. *)
Definition tokenize_end (acc : list jsstring * jsstring) : list jsstring :=
  if nonempty (snd acc) then fst acc ++ [snd acc] else fst acc.

(** ** Postfix sequences *)

(** What the converter emits for a token: its number when it has one, the
    token itself otherwise. *)
Definition token_value (t : jsstring) : value :=
  if isNaN t then VStr t else VNum (ToNumber t).

Definition is_number (v : value) : bool :=
  match v with
  | VNum _ => true
  | VStr _ => false
  end.

(** A list of tokens as [tokenize] returns them: literals and symbols. *)
Definition tokenizer_shaped (tokens : list jsstring) : bool :=
  forallb (fun t => literal t || symbol t) tokens.

(** The state of the loop of [toRPN], flushed as its last line does. *)
Definition flush (acc : list value * list jsstring) : list value :=
  fst acc ++ map VStr (snd acc).

(** The strings the evaluator knows as operators. *)
Definition known_operator (t : jsstring) : bool :=
  streq t [PERCENT] || streq t [PLUS] || streq t [MINUS] || streq t [TIMES]
  || streq t [DIVIDE].

(** ** Expressions

    An expression is a term followed by additive operators and terms, a term
    a factor followed by multiplicative operators and factors, a factor a
    literal followed by percent signs. *)
Inductive addop : Type := Add | Sub.
Inductive mulop : Type := Mul | Div.

Definition addop_token (o : addop) : jsstring :=
  match o with
  | Add => [PLUS]
  | Sub => [MINUS]
  end.

Definition mulop_token (o : mulop) : jsstring :=
  match o with
  | Mul => [TIMES]
  | Div => [DIVIDE]
  end.

Record factor : Type := mkFactor { lit : jsstring; percents : nat }.
Definition term : Type := (factor * list (mulop * factor))%type.
Definition expression : Type := (term * list (addop * term))%type.

(** The tokens of an expression, in the order they are written. *)
Definition factor_tokens (f : factor) : list jsstring :=
  lit f :: repeat [PERCENT] (percents f).

Definition factors_tokens (fs : list (mulop * factor)) : list jsstring :=
  flat_map (fun mf => mulop_token (fst mf) :: factor_tokens (snd mf)) fs.

Definition term_tokens (t : term) : list jsstring :=
  factor_tokens (fst t) ++ factors_tokens (snd t).

Definition terms_tokens (ts : list (addop * term)) : list jsstring :=
  flat_map (fun at_ => addop_token (fst at_) :: term_tokens (snd at_)) ts.

Definition expression_tokens (e : expression) : list jsstring :=
  term_tokens (fst e) ++ terms_tokens (snd e).

(** The operations as the cases of the evaluator's [switch] compute them. *)
Definition eval_addop (o : addop) (a b : float) : float :=
  match o with
  | Add => (a + b)%float
  | Sub => (a - b)%float
  end.

Definition eval_mulop (o : mulop) (a b : float) : float :=
  match o with
  | Mul => (a * b)%float
  | Div => if (b =? zero)%float then nan else (a / b)%float
  end.

(** The value of an expression: each percent sign divides its literal by
    100, the factors of a term are combined from left to right, and so are
    the terms. *)
Definition percent_of (k : nat) (x : float) : float :=
  Nat.iter k (fun y => (y / f_100)%float) x.

Definition factor_value (f : factor) : float :=
  percent_of (percents f) (ToNumber (lit f)).

Definition factors_value (fs : list (mulop * factor)) (acc : float) : float :=
  fold_left (fun a mf => eval_mulop (fst mf) a (factor_value (snd mf))) fs acc.

Definition term_value (t : term) : float :=
  factors_value (snd t) (factor_value (fst t)).

Definition terms_value (ts : list (addop * term)) (acc : float) : float :=
  fold_left (fun a at_ => eval_addop (fst at_) a (term_value (snd at_))) ts acc.

Definition expression_value (e : expression) : float :=
  terms_value (snd e) (term_value (fst e)).

(** Every literal of the expression is a run of digits and points that
    denotes a number. *)
Definition factor_ok (f : factor) : bool :=
  literal (lit f) && negb (isNaN (lit f)).

Definition factors_ok (fs : list (mulop * factor)) : bool :=
  forallb (fun mf => factor_ok (snd mf)) fs.

Definition term_ok (t : term) : bool :=
  factor_ok (fst t) && factors_ok (snd t).

Definition terms_ok (ts : list (addop * term)) : bool :=
  forallb (fun at_ => term_ok (snd at_)) ts.

Definition expression_ok (e : expression) : bool :=
  term_ok (fst e) && terms_ok (snd e).

(** Precedence at least that of the multiplicative, resp. additive,
    operators. *)
Definition high (t : jsstring) : bool := ge_entry (prec t) (Some 2%Z).
Definition low (t : jsstring) : bool := ge_entry (prec t) (Some 1%Z).

(** The operator stack is empty or has an additive operator on top. *)
Definition low_top (op : list jsstring) : Prop :=
  match op with
  | [] => True
  | t :: _ => high t = false
  end.

(** The list is empty or starts with a symbol. *)
Definition symbol_first (toks : list jsstring) : Prop :=
  match toks with
  | [] => True
  | t :: _ => symbol t = true
  end.

(** The text of an expression. *)
Definition expression_text (e : expression) : jsstring :=
  concat (expression_tokens e).

(** The last lines of [compute]: the error marker for a value that is not
    finite, else the text of the value rounded to twelve decimals. *)
Definition normalize (v : float) : value :=
  if negb (isFinite v) then VStr Err
  else VStr (ToString (Math_round ((v + EPSILON) * f_1e12) / f_1e12)%float).

(** ** The keyboard *)

(** [mapKey(ev)], as a function of [ev.key]; [None] is [null]. *)
Definition mapKey (k : jsstring) : option jsstring :=
  if digit_key k then Some k
  else if streq k (str ".") then Some (str ".")
  else if streq k (str "Enter") || streq k (str "=") then Some (str "=")
  else if streq k (str "Backspace") then Some (str "DEL")
  else if streq k (str "Escape") then Some (str "C")
  else if streq k (str "+") then Some [PLUS]
  else if streq k (str "-") then Some [MINUS]
  else if streq k (str "*") then Some [TIMES]
  else if streq k (str "/") then Some [DIVIDE]
  else if streq k (str "%") then Some [PERCENT]
  else None.

(** The [keydown] listener as a function of the globals: [if (!key) return]
    lets neither [null] nor an empty string through. *)
Definition keydown (k : jsstring) (st : state) : state :=
  match mapKey k with
  | Some key => if nonempty key then press key st else st
  | None => st
  end.

(** A finite sequence of key events, first event first. *)
Definition keydowns (ks : list jsstring) (st : state) : state :=
  fold_left (fun s k => keydown k s) ks st.

(** ** The grammar of the buffer while it is edited *)

(** Whether [c] may stand right after [prev] ([None]: at the start): a digit
    anywhere, a point or a percent sign after a digit, an operator glyph
    after a digit or a percent sign, nothing else. *)
Definition follows (prev : option char) (c : char) : bool :=
  let after_digit :=
    match prev with Some p => is_digit p | None => false end in
  let after_operand :=
    match prev with
    | Some p => is_digit p || N.eqb p PERCENT
    | None => false
    end in
  if is_digit c then true
  else if N.eqb c DOT then after_digit
  else if N.eqb c PERCENT then after_digit
  else if isOp [c] then after_operand
  else false.

(** Every character of a string, given last character first, may stand
    where it does. *)
Fixpoint chained (r : list char) : bool :=
  match r with
  | [] => true
  | c :: r' => follows (nth_error r' 0) c && chained r'
  end.

Definition buffer_ok (e : jsstring) : bool := chained (rev e).

(** The buffer is a string that keeps the grammar. *)
Definition edit_state (st : state) : Prop :=
  exists e, expr st = VStr e /\ buffer_ok e = true.

(** * Properties *)

(** Case analysis on membership in an explicit list of keys. *)
Ltac each_key H :=
  simpl in H;
  repeat match type of H with
         | _ \/ _ => destruct H as [H|H]
         | False => destruct H
         end.

(** ** The pipeline on concrete expressions *)

(** C3: [compute] of 2, plus, 3, times, 4 is the string "14".  The converter
    puts the times sign before the plus sign, so the product is taken
    first. *)
Theorem compute_precedence_example :
  compute (VStr (str "2" ++ [PLUS] ++ str "3" ++ [TIMES] ++ str "4"))
  = VStr (str "14")
  /\ toRPN (tokenize (str "2" ++ [PLUS] ++ str "3" ++ [TIMES] ++ str "4"))
     = [VNum 2; VNum 3; VNum 4; VStr [TIMES]; VStr [PLUS]].
Proof. split; vm_compute; reflexivity. Qed.

(** C7: [compute] of 5, divided by, 0 is "Err".  The evaluator returns [NaN]
    there, and whatever the dividend and the rest of the stack, a division by
    either zero pushes [NaN]: no exception, no infinity. *)
Theorem compute_division_by_zero :
  compute (VStr (str "5" ++ [DIVIDE] ++ str "0")) = VStr (str "Err")
  /\ evalRPN (toRPN (tokenize (str "5" ++ [DIVIDE] ++ str "0"))) = nan
  /\ (forall a st rest,
        evalRPN_loop (VStr [DIVIDE] :: rest) (zero :: a :: st)
        = evalRPN_loop rest (nan :: st))
  /\ (forall a st rest,
        evalRPN_loop (VStr [DIVIDE] :: rest) (neg_zero :: a :: st)
        = evalRPN_loop rest (nan :: st)).
Proof.
  split; [vm_compute; reflexivity|].
  split; [vm_compute; reflexivity|].
  split; intros; reflexivity.
Qed.

(** C5: on the empty string [compute] returns the number 0, not a string;
    on the string "0" it returns the string "0". *)
Theorem compute_empty_returns_number :
  compute (VStr []) = VNum zero
  /\ compute (VStr []) <> VStr (str "0")
  /\ compute (VStr (str "0")) = VStr (str "0").
Proof.
  split; [reflexivity|].
  split; [discriminate|].
  vm_compute; reflexivity.
Qed.

(** ** The end of the postfix evaluation *)

Lemma nan_not_zero : nan <> zero.
Proof.
  intro H.
  assert (E : is_nan nan = is_nan zero) by (rewrite H; reflexivity).
  discriminate E.
Qed.

(** C1, as stated, fails: with nothing on the final stack the result is [NaN]
    and not [0], and with two values left the result is the one pushed first,
    a number. *)
Lemma evalRPN_final_stack_counterexample :
  evalRPN_loop [] [] = Some []
  /\ evalRPN [] = nan
  /\ evalRPN [] <> zero
  /\ evalRPN_loop [VNum 3; VNum 4] [] = Some [4%float; 3%float]
  /\ evalRPN [VNum 3; VNum 4] = 3%float
  /\ is_nan (evalRPN [VNum 3; VNum 4]) = false.
Proof.
  repeat split; try reflexivity.
  exact nan_not_zero.
Qed.

(** C1, amended: once every token is consumed, an empty final stack gives
    [NaN] and a final stack of exactly one value gives that value. *)
Theorem evalRPN_final_stack :
  forall rpn st,
    evalRPN_loop rpn [] = Some st ->
    (st = [] -> evalRPN rpn = nan)
    /\ (forall v, st = [v] -> evalRPN rpn = v).
Proof.
  intros rpn st H. unfold evalRPN. rewrite H.
  split.
  - intros ->. reflexivity.
  - intros v ->. reflexivity.
Qed.

Lemma evalRPN_final_stack_witness :
  evalRPN_loop [VNum 3; VNum 4; VStr [PLUS]] [] = Some [7%float]
  /\ evalRPN [VNum 3; VNum 4; VStr [PLUS]] = 7%float.
Proof.
  split; [reflexivity|].
  apply (evalRPN_final_stack [VNum 3; VNum 4; VStr [PLUS]] [7%float]);
    reflexivity.
Defined.

(** An early [return NaN] of the loop, or an empty final stack, are the only
    ways to a result that is not a value left on the stack. *)
Lemma evalRPN_value_on_stack :
  forall rpn,
    evalRPN rpn = nan
    \/ exists st v, evalRPN_loop rpn [] = Some (st ++ [v]) /\ evalRPN rpn = v.
Proof.
  intros rpn. unfold evalRPN.
  destruct (evalRPN_loop rpn []) as [st|]; [|left; reflexivity].
  destruct (rev st) as [|v r] eqn:E.
  - left. unfold final_value. rewrite E. reflexivity.
  - right. exists (rev r), v. split.
    + f_equal. rewrite <- (rev_involutive st), E. reflexivity.
    + unfold final_value. rewrite E. reflexivity.
Qed.

(** ** Strings and their last code unit *)

Lemma streq_true_iff : forall a b, streq a b = true <-> a = b.
Proof.
  induction a as [|x a IH]; destruct b as [|y b]; simpl;
    try (split; [discriminate|discriminate]); [tauto|].
  rewrite andb_true_iff, N.eqb_eq, IH.
  split; [intros [-> ->]; reflexivity|intros E; inversion E; auto].
Qed.

Lemma nonempty_true_iff : forall s, nonempty s = true <-> s <> [].
Proof. destruct s; simpl; split; congruence. Qed.

Lemma snoc_cases : forall s : jsstring, s = [] \/ exists s' c, s = s' ++ [c].
Proof.
  intros s. induction s as [|c s' _] using rev_ind; [left|right]; eauto.
Qed.

Lemma at_m1_snoc : forall s c, at_m1 (s ++ [c]) = Some c.
Proof. intros. unfold at_m1. rewrite rev_unit. reflexivity. Qed.

Lemma slice_snoc : forall s c, slice_0_m1 (s ++ [c]) = s.
Proof. intros. apply removelast_last. Qed.

Lemma endsWith_snoc : forall s c x, endsWith (s ++ [c]) x = N.eqb c x.
Proof. intros. unfold endsWith. rewrite at_m1_snoc. reflexivity. Qed.

Lemma ends_in_digit_snoc : forall s c, ends_in_digit (s ++ [c]) = is_digit c.
Proof. intros. unfold ends_in_digit. rewrite at_m1_snoc. reflexivity. Qed.

Lemma snoc_not_nil : forall (s : jsstring) c, s ++ [c] <> [].
Proof. intros s c E. destruct s; discriminate. Qed.

Lemma app_not_nil_r : forall s t : jsstring, t <> [] -> s ++ t <> [].
Proof. intros s t H E. apply app_eq_nil in E. tauto. Qed.

Lemma logical_key_In : forall k, logical_key k = true -> In k logical_keys.
Proof.
  intros k H. unfold logical_key in H.
  apply existsb_exists in H. destruct H as [x [Hx E]].
  apply streq_true_iff in E. subst. assumption.
Qed.

(** ** [tailDisplay] *)

Lemma tailDisplay_not_nil : forall e, e <> [] -> tailDisplay e <> [].
Proof.
  intros e He. unfold tailDisplay.
  destruct (at_m1 e) as [last|].
  - destruct (isOp [last] || N.eqb last PERCENT); [discriminate|].
    destruct (nonempty (match_end number_percent_re e)) eqn:M.
    + apply nonempty_true_iff. assumption.
    + assumption.
  - destruct (nonempty (match_end number_percent_re e)) eqn:M.
    + apply nonempty_true_iff. assumption.
    + assumption.
Qed.


(** ** [press], key by key *)

Lemma press_C : forall st, press (str "C") st = init.
Proof. reflexivity. Qed.

Lemma press_DEL : forall e d,
  press (str "DEL") (mkState (VStr e) d)
  = let e' := if nonempty e then slice_0_m1 e else e in
    mkState (VStr e') (VStr (if nonempty e' then tailDisplay e' else str "0")).
Proof. reflexivity. Qed.

Lemma press_EQ : forall st,
  press (str "=") st
  = match compute (if truthy (expr st) then expr st else display st) with
    | VStr r => mkState (if streq r Err then VStr [] else VStr r) (VStr r)
    | VNum x => mkState (VNum x) (VNum x)
    end.
Proof.
  intros st.
  change (press (str "=") st)
    with (let result :=
            compute (if truthy (expr st) then expr st else display st) in
          match result with
          | VStr r => mkState (if streq r Err then VStr [] else result) result
          | VNum _ => mkState result result
          end).
  cbv zeta.
  destruct (compute (if truthy (expr st) then expr st else display st));
    reflexivity.
Qed.

Lemma press_DOT : forall e d,
  press [DOT] (mkState (VStr e) d)
  = if includes (getCurrentNumber e) [DOT] then mkState (VStr e) d
    else
      let e' :=
        e ++ (if nonempty e && ends_in_digit e then [DOT] else str "0.") in
      mkState (VStr e') (VStr (tailDisplay e')).
Proof. reflexivity. Qed.

Lemma press_PERCENT : forall e d,
  press [PERCENT] (mkState (VStr e) d)
  = if ends_in_digit e
    then mkState (VStr (e ++ [PERCENT])) (VStr (tailDisplay (e ++ [PERCENT])))
    else mkState (VStr e) d.
Proof. reflexivity. Qed.

Lemma press_operator : forall k e d,
  In k operator_keys ->
  press k (mkState (VStr e) d)
  = if nonempty e then
      let e1 := if isOp_at (at_m1 e) then slice_0_m1 e else e in
      let e2 := if endsWith e1 DOT then slice_0_m1 e1 else e1 in
      mkState (VStr (e2 ++ k)) (VStr k)
    else if streq k [MINUS] then
      mkState (VStr ([ZERO] ++ [MINUS])) (VStr [MINUS])
    else mkState (VStr e) d.
Proof.
  intros k e d H. each_key H; subst k; destruct e; reflexivity.
Qed.

Lemma press_digit : forall k e d,
  In k digit_keys ->
  press k (mkState (VStr e) d)
  = let e' :=
      if endsWith e ZERO
         && (Nat.eqb (length e) 1 || isOp_at (at_m2 e))
         && negb (streq k [ZERO])
      then slice_0_m1 e ++ k
      else e ++ k in
    mkState (VStr e') (VStr (tailDisplay e')).
Proof.
  intros k e d H. each_key H; subst k; reflexivity.
Qed.

(** ** The shape of [String(x)] *)

Lemma dots_app : forall s t, dots (s ++ t) = dots s + dots t.
Proof. intros. apply count_occ_app. Qed.

Lemma dots_cons_other : forall c s, c <> DOT -> dots (c :: s) = dots s.
Proof. intros c s H. apply count_occ_cons_neq. assumption. Qed.

Lemma dots_uint_chars : forall u, dots (uint_chars u) = 0.
Proof.
  induction u; simpl uint_chars; [reflexivity| ..];
    rewrite dots_cons_other by discriminate; assumption.
Qed.

Lemma dots_zeros : forall n, dots (repeat ZERO n) = 0.
Proof.
  induction n; simpl repeat; [reflexivity|].
  rewrite dots_cons_other by discriminate. assumption.
Qed.

Lemma uint_chars_not_nil : forall u, u <> Decimal.Nil -> uint_chars u <> [].
Proof. intros u H. destruct u; simpl; congruence. Qed.

Lemma decimal_not_nil : forall p, decimal p <> [].
Proof.
  intros p. apply uint_chars_not_nil. apply Unsigned.to_uint_nonnil.
Qed.

Lemma format_shape : forall ds n,
  ds <> [] -> dots ds = 0 ->
  format ds n <> [] /\ dots (format ds n) <= 1.
Proof.
  intros ds n Hne Hd. unfold format.
  destruct ((-6 <? n)%Z && (n <=? 21)%Z).
  - destruct (Z.of_nat (length ds) <=? n)%Z.
    + split.
      * intro E. apply app_eq_nil in E. tauto.
      * rewrite dots_app, Hd, dots_zeros. lia.
    + destruct (0 <? n)%Z.
      * split.
        -- apply app_not_nil_r. discriminate.
        -- rewrite !dots_app.
           rewrite <- (firstn_skipn (Z.to_nat n) ds), dots_app in Hd.
           change (dots [DOT]) with 1. lia.
      * split.
        -- discriminate.
        -- rewrite !dots_app, Hd, dots_zeros. change (dots (str "0.")) with 1.
           lia.
  - destruct ds as [|d [|d' rest]]; [congruence| |].
    + split; [discriminate|].
      rewrite !dots_app, dots_uint_chars, Hd.
      change (dots (str "e")) with 0.
      destruct (n - 1 <? 0)%Z;
        [change (dots (str "-")) with 0|change (dots (str "+")) with 0]; lia.
    + split; [discriminate|].
      change (d :: d' :: rest) with ([d] ++ d' :: rest) in Hd.
      rewrite dots_app in Hd.
      rewrite !dots_app, dots_uint_chars. change (dots [DOT]) with 1.
      change (dots (str "e")) with 0.
      destruct (n - 1 <? 0)%Z;
        [change (dots (str "-")) with 0|change (dots (str "+")) with 0]; lia.
Qed.

Lemma ToString_shape : forall x, ToString x <> [] /\ dots (ToString x) <= 1.
Proof.
  intros x. unfold ToString.
  destruct (Prim2SF x) as [s|s| |s m e].
  - split; [discriminate|]. change (dots (str "0")) with 0. lia.
  - destruct s; (split; [discriminate|]).
    + change (dots (str "-Infinity")) with 0. lia.
    + change (dots (str "Infinity")) with 0. lia.
  - split; [discriminate|]. change (dots (str "NaN")) with 0. lia.
  - unfold positive_to_string.
    destruct (shortest _ _ _ _ _ _) as [sd n].
    destruct (format_shape (decimal (Z.to_pos sd)) n
                (decimal_not_nil (Z.to_pos sd)) (dots_uint_chars _))
      as [Hne Hd].
    split.
    + apply app_not_nil_r. assumption.
    + rewrite dots_app.
      destruct s; [change (dots (str "-")) with 0|change (dots []) with 0];
        lia.
Qed.

(** ** No two decimal points side by side *)

Lemma no_double_dot_few_dots : forall s, dots s <= 1 -> no_double_dot s.
Proof.
  intros s H a b E. subst s. rewrite !dots_app in H.
  change (dots [DOT; DOT]) with 2 in H. lia.
Qed.

Lemma no_double_dot_prefix : forall s t, no_double_dot (s ++ t) -> no_double_dot s.
Proof.
  intros s t H a b E. apply (H a (b ++ t)). subst s.
  rewrite <- !app_assoc. reflexivity.
Qed.

Lemma no_double_dot_slice : forall s, no_double_dot s -> no_double_dot (slice_0_m1 s).
Proof.
  intros s H. destruct (snoc_cases s) as [->|[s' [c ->]]]; [exact H|].
  rewrite slice_snoc. apply (no_double_dot_prefix _ _ H).
Qed.

Lemma no_double_dot_snoc : forall s c,
  no_double_dot s -> c <> DOT \/ endsWith s DOT = false ->
  no_double_dot (s ++ [c]).
Proof.
  intros s c H Hc a b E.
  destruct (snoc_cases b) as [->|[b' [y ->]]].
  - change (a ++ [DOT; DOT] ++ []) with (a ++ [DOT; DOT]) in E.
    change [DOT; DOT] with ([DOT] ++ [DOT]) in E.
    rewrite app_assoc in E. apply app_inj_tail in E. destruct E as [-> ->].
    rewrite endsWith_snoc in Hc. destruct Hc as [Hc|Hc]; [congruence|discriminate].
  - rewrite !app_assoc in E. apply app_inj_tail in E. destruct E as [-> _].
    apply (H a b'). rewrite <- app_assoc. reflexivity.
Qed.

Lemma no_double_dot_ends : forall s,
  no_double_dot s -> endsWith s DOT = true ->
  endsWith (slice_0_m1 s) DOT = false.
Proof.
  intros s H E.
  destruct (snoc_cases s) as [->|[s' [c ->]]]; [discriminate|].
  rewrite endsWith_snoc in E. apply N.eqb_eq in E. subst c.
  rewrite slice_snoc.
  destruct (snoc_cases s') as [->|[s'' [c ->]]]; [reflexivity|].
  rewrite endsWith_snoc. destruct (N.eqb_spec c DOT) as [->|]; [|reflexivity].
  exfalso. apply (H s'' []). rewrite <- app_assoc. reflexivity.
Qed.

Create HintDb buffer.
#[local] Hint Resolve no_double_dot_slice no_double_dot_snoc : buffer.

(** ** The keys by the branch of [press] that takes them *)

Lemma logical_key_classes : forall k,
  In k logical_keys ->
  In k digit_keys \/ k = [DOT] \/ In k operator_keys \/ k = [PERCENT]
  \/ k = str "=" \/ k = str "C" \/ k = str "DEL".
Proof.
  intros k H. unfold logical_keys in H.
  apply in_app_or in H. destruct H as [H|H]; [tauto|].
  apply in_app_or in H. destruct H as [H|H].
  { destruct H as [H|[]]. auto. }
  apply in_app_or in H. destruct H as [H|H]; [tauto|].
  simpl in H. intuition auto.
Qed.

Lemma digit_key_last : forall k,
  In k digit_keys -> exists c, k = [c] /\ c <> DOT.
Proof.
  intros k H.
  each_key H; subst k; eexists; (split; [reflexivity|discriminate]).
Qed.

Lemma operator_key_last : forall k,
  In k operator_keys -> exists c, k = [c] /\ c <> DOT.
Proof.
  intros k H.
  each_key H; subst k; eexists; (split; [reflexivity|discriminate]).
Qed.

(** ** The display follows the buffer while nothing is evaluated *)







(** ** Strings in, strings out *)

(** On a non-empty string [compute] returns the error marker or the text of
    a number. *)
Lemma compute_of_string : forall a,
  a <> [] ->
  compute (VStr a) = VStr Err \/ exists x, compute (VStr a) = VStr (ToString x).
Proof.
  intros a Ha. unfold compute.
  replace (truthy (VStr a)) with true
    by (symmetry; apply nonempty_true_iff; exact Ha).
  cbv zeta. simpl negb at 1. cbv iota.
  destruct (negb (isFinite (evalRPN (toRPN (tokenize_value (VStr a)))))).
  - left. reflexivity.
  - right. eexists. reflexivity.
Qed.

Lemma Err_shape : Err <> [] /\ no_double_dot Err.
Proof.
  split; [discriminate|].
  apply no_double_dot_few_dots. change (dots Err) with 0. lia.
Qed.

Lemma string_state_init : string_state init.
Proof.
  exists [], (str "0"). split; [reflexivity|]. split; [discriminate|].
  intros a b E. destruct a; discriminate.
Qed.

Lemma string_state_snoc : forall e c,
  no_double_dot e -> c <> DOT \/ endsWith e DOT = false ->
  string_state (mkState (VStr (e ++ [c])) (VStr (tailDisplay (e ++ [c])))).
Proof.
  intros e c H Hc. exists (e ++ [c]), (tailDisplay (e ++ [c])).
  split; [reflexivity|]. split.
  - apply tailDisplay_not_nil. apply snoc_not_nil.
  - apply no_double_dot_snoc; assumption.
Qed.

Lemma ends_in_digit_not_dot : forall e,
  ends_in_digit e = true -> endsWith e DOT = false.
Proof.
  intros e H. destruct (snoc_cases e) as [->|[e' [c ->]]]; [reflexivity|].
  rewrite ends_in_digit_snoc in H. rewrite endsWith_snoc.
  destruct (N.eqb_spec c DOT) as [->|]; [discriminate H|reflexivity].
Qed.

Lemma press_string_state : forall k st,
  In k logical_keys -> string_state st -> string_state (press k st).
Proof.
  intros k st Hk Hst.
  destruct Hst as [e [d [-> [Hd He]]]].
  assert (Hst : string_state (mkState (VStr e) (VStr d)))
    by (exists e, d; auto).
  apply logical_key_classes in Hk.
  destruct Hk as [Hk|[Hk|[Hk|[Hk|[Hk|[Hk|Hk]]]]]].
  - rewrite (press_digit k e (VStr d) Hk). cbv zeta.
    destruct (digit_key_last k Hk) as [c [-> Hc]].
    destruct (endsWith e ZERO && _ && _);
      apply string_state_snoc; auto with buffer.
  - subst k. rewrite press_DOT.
    destruct (includes (getCurrentNumber e) [DOT]); [exact Hst|].
    cbv zeta. destruct (nonempty e && ends_in_digit e) eqn:E.
    + apply andb_true_iff in E. destruct E as [_ E].
      apply string_state_snoc; auto using ends_in_digit_not_dot.
    + change (e ++ str "0.") with (e ++ [ZERO] ++ [DOT]).
      rewrite app_assoc. apply string_state_snoc.
      * apply no_double_dot_snoc; [assumption|left; discriminate].
      * right. rewrite endsWith_snoc. reflexivity.
  - rewrite (press_operator k e (VStr d) Hk).
    destruct (nonempty e).
    + cbv zeta. destruct (operator_key_last k Hk) as [c [-> Hc]].
      eexists _, [c]. split; [reflexivity|]. split; [discriminate|].
      apply no_double_dot_snoc; [|left; assumption].
      destruct (isOp_at (at_m1 e));
        match goal with |- context [endsWith ?x DOT] =>
          destruct (endsWith x DOT) end;
        auto with buffer.
    + destruct (streq k [MINUS]); [|exact Hst].
      exists ([ZERO] ++ [MINUS]), [MINUS].
      split; [reflexivity|]. split; [discriminate|].
      apply no_double_dot_few_dots. change (dots ([ZERO] ++ [MINUS])) with 0.
      lia.
  - subst k. rewrite press_PERCENT.
    destruct (ends_in_digit e); [|exact Hst].
    apply string_state_snoc; [assumption|left; discriminate].
  - subst k. rewrite press_EQ. simpl expr. simpl display.
    assert (Harg : exists a, a <> [] /\
              (if truthy (VStr e) then VStr e else VStr d) = VStr a).
    { destruct e as [|c e']; simpl.
      - exists d. auto.
      - exists (c :: e'). split; [discriminate|reflexivity]. }
    destruct Harg as [a [Ha ->]].
    destruct (compute_of_string a Ha) as [->|[x ->]].
    + exists [], Err. split; [reflexivity|]. split; [apply Err_shape|].
      intros p q E. destruct p; discriminate.
    + destruct (ToString_shape x) as [Hne Hdots].
      destruct (streq (ToString x) Err).
      * exists [], (ToString x). split; [reflexivity|]. split; [assumption|].
        intros p q E. destruct p; discriminate.
      * exists (ToString x), (ToString x). split; [reflexivity|].
        split; [assumption|]. apply no_double_dot_few_dots. assumption.
  - subst k. rewrite press_C. apply string_state_init.
  - subst k. rewrite press_DEL. cbv zeta.
    eexists _, _. split; [reflexivity|]. split.
    + destruct (nonempty (if nonempty e then slice_0_m1 e else e)) eqn:N.
      * apply tailDisplay_not_nil. apply nonempty_true_iff. exact N.
      * discriminate.
    + destruct (nonempty e); auto with buffer.
Qed.

Lemma presses_string_state : forall ks st,
  Forall (fun k => logical_key k = true) ks ->
  string_state st -> string_state (presses ks st).
Proof.
  induction ks as [|k ks IH]; intros st Hks Hst; [assumption|].
  inversion Hks as [|? ? Hk Hrest]; subst.
  simpl. apply IH; [assumption|].
  apply press_string_state; auto using logical_key_In.
Qed.

(** Whatever the key, as long as it is not the empty string, the display
    stays a non-empty string. *)
Lemma press_shows_text : forall k st,
  k <> [] -> shows_text st -> shows_text (press k st).
Proof.
  intros k st Hk [e [d [-> Hd]]]. unfold press. cbn [expr display].
  destruct (streq k (str "C")).
  { exists [], (str "0"). split; [reflexivity|discriminate]. }
  destruct (streq k (str "DEL")).
  { eexists _, _. split; [reflexivity|].
    destruct (nonempty (if nonempty e then slice_0_m1 e else e)) eqn:N;
      [|discriminate].
    apply tailDisplay_not_nil, nonempty_true_iff. exact N. }
  destruct (streq k (str "=")).
  { cbv zeta.
    assert (Harg : exists a, a <> [] /\
              (if truthy (VStr e) then VStr e else VStr d) = VStr a).
    { destruct e as [|c e']; simpl.
      - exists d. auto.
      - exists (c :: e'). split; [discriminate|reflexivity]. }
    destruct Harg as [a [Ha ->]].
    destruct (compute_of_string a Ha) as [->|[x ->]].
    - exists [], Err. split; [reflexivity|discriminate].
    - destruct (streq (ToString x) Err); eexists _, _;
        (split; [reflexivity|apply ToString_shape]). }
  destruct (streq k [DOT]).
  { destruct (includes (getCurrentNumber e) [DOT]); [exists e, d; auto|].
    eexists _, _. split; [reflexivity|].
    apply tailDisplay_not_nil, app_not_nil_r.
    destruct (nonempty e && ends_in_digit e); discriminate. }
  destruct (streq k [PERCENT]).
  { destruct (ends_in_digit e); [|exists e, d; auto].
    eexists _, _. split; [reflexivity|].
    apply tailDisplay_not_nil, snoc_not_nil. }
  destruct (isOp k).
  { cbn [truthy]. destruct (nonempty e); cbn [negb].
    - eexists _, k. split; [reflexivity|exact Hk].
    - destruct (streq k [MINUS]); [|exists e, d; auto].
      eexists _, _. split; [reflexivity|discriminate]. }
  destruct (digit_key k); [|exists e, d; auto].
  eexists _, _. split; [reflexivity|].
  apply tailDisplay_not_nil.
  destruct (endsWith e ZERO && _ && _); apply app_not_nil_r; exact Hk.
Qed.

(** The empty key is the exception: taken for an operator, it becomes the
    display. *)
Lemma empty_key_empties_display :
  display (press [] (mkState (VStr (str "1")) (VStr (str "1")))) = VStr [].
Proof. reflexivity. Qed.

(** Within the logical alphabet the display is never emptied: after any
    finite sequence of presses of logical keys, starting from the initial
    state, [display] is a string and is not empty. *)
Theorem display_never_empty :
  forall ks,
    Forall (fun k => logical_key k = true) ks ->
    exists d, display (presses ks init) = VStr d /\ d <> [].
Proof.
  intros ks Hks.
  destruct (presses_string_state ks init Hks string_state_init)
    as [e [d [E [Hd _]]]].
  exists d. rewrite E. split; [reflexivity|assumption].
Qed.

Lemma display_never_empty_witness :
  exists d,
    display (presses [str "5"; [DIVIDE]; str "0"; str "="; str "DEL"] init)
    = VStr d
    /\ d <> [].
Proof.
  apply (display_never_empty [str "5"; [DIVIDE]; str "0"; str "="; str "DEL"]).
  repeat constructor.
Defined.

(** C10 at the key 1 followed by the empty key: [isOp] accepts the empty
    string, the operator branch runs on the buffer "1" and its assignment
    [display = k] leaves the display empty. *)
Theorem display_emptied_by_empty_key :
  isOp [] = true
  /\ presses [str "1"] init = mkState (VStr (str "1")) (VStr (str "1"))
  /\ presses [str "1"; []] init = mkState (VStr (str "1")) (VStr [])
  /\ display (presses [str "1"; []] init) = VStr [].
Proof. repeat split. Qed.

(** ** Operator replacement *)

Lemma isOp_at_operator : forall e c,
  In [c] operator_keys -> isOp_at (at_m1 (e ++ [c])) = true.
Proof.
  intros e c H. rewrite at_m1_snoc.
  each_key H; inversion H; reflexivity.
Qed.





(** Without the restriction to reachable buffers the second press can differ:
    a buffer ending in two decimal points loses one at each press. *)
Lemma plus_twice_needs_reachable :
  press [PLUS] (press [PLUS] (mkState (VStr (str "1..")) (VStr (str "1.."))))
  <> press [PLUS] (mkState (VStr (str "1..")) (VStr (str "1.."))).
Proof. discriminate. Qed.

(** ** Keys that no branch of [press] takes *)

(** A key that is none of the five named ones, is no run of the glyph string
    and does not lie between "0" and "9" leaves the state as it is. *)
Lemma press_unmatched_key : forall k st,
  streq k (str "C") = false -> streq k (str "DEL") = false ->
  streq k (str "=") = false -> streq k [DOT] = false ->
  streq k [PERCENT] = false -> isOp k = false -> digit_key k = false ->
  press k st = st.
Proof.
  intros k st H1 H2 H3 H4 H5 H6 H7. unfold press.
  rewrite H1, H2, H3, H4, H5, H6, H7. reflexivity.
Qed.

(** C9 at the empty key, which is outside the logical alphabet: [isOp]
    accepts it, and on the buffer "1" the press empties the display.  The key
    "12" is taken for a digit and appended. *)
Theorem press_outside_alphabet :
  logical_key [] = false
  /\ isOp [] = true
  /\ presses [str "1"] init = mkState (VStr (str "1")) (VStr (str "1"))
  /\ press [] (presses [str "1"] init) = mkState (VStr (str "1")) (VStr [])
  /\ press [] (presses [str "1"] init) <> presses [str "1"] init
  /\ logical_key (str "12") = false
  /\ press (str "12") init = mkState (VStr (str "12")) (VStr (str "12")).
Proof. repeat split. discriminate. Qed.

(** ** A digit after a percent sign *)

(** C2 at the keys 3, percent, 4: the buffer is "3%4", its tokens are a
    number, a percent sign and a number with no operator between, which is no
    prefix of an infix expression; the postfix form leaves two values on the
    stack. *)
Theorem digit_after_percent :
  let st := presses [str "3"; str "%"; str "4"] init in
  expr st = VStr (str "3%4")
  /\ tokenize (str "3%4") = [str "3"; str "%"; str "4"]
  /\ well_formed_prefix (tokenize (str "3%4")) = false
  /\ toRPN (tokenize (str "3%4")) = [VNum 3; VNum 4; VStr (str "%")]
  /\ evalRPN_loop (toRPN (tokenize (str "3%4"))) []
     = Some [(4 / 100)%float; 3%float]
  /\ compute (VStr (str "3%4")) = VStr (str "3").
Proof. repeat split; vm_compute; reflexivity. Qed.

(** The prefix grammar accepts what well-formed entry produces. *)
Lemma well_formed_prefix_examples :
  well_formed_prefix (tokenize []) = true
  /\ well_formed_prefix (tokenize (str "12" ++ [PLUS] ++ str "3.5%")) = true
  /\ well_formed_prefix (tokenize (str "0" ++ [MINUS])) = true
  /\ well_formed_prefix (tokenize (str "7" ++ [TIMES] ++ str "0.")) = true
  /\ well_formed_prefix (tokenize ([PLUS] ++ str "7")) = false
  /\ well_formed_prefix (tokenize (str "7" ++ [PLUS; TIMES])) = false.
Proof. repeat split; vm_compute; reflexivity. Qed.

(** ** Evaluating a negative result again *)

(** C4 at the keys minus, 3, evaluate, evaluate: the first evaluation leaves
    "-3" in both globals, the second reads the buffer "-3", whose sign the
    tokenizer drops, and leaves "3". *)
Theorem evaluate_again_negative :
  presses [[MINUS]; str "3"; str "="] init
  = mkState (VStr (str "-3")) (VStr (str "-3"))
  /\ tokenize (str "-3") = [str "3"]
  /\ press (str "=") (presses [[MINUS]; str "3"; str "="] init)
     = mkState (VStr (str "3")) (VStr (str "3")).
Proof. repeat split; vm_compute; reflexivity. Qed.

(** ** What the tokenizer emits *)

Lemma tokenize_loop_shape : forall s tokens buf,
  Forall token_shape tokens ->
  Forall (fun c => is_digit_or_dot c = true) buf ->
  Forall token_shape (fst (fold_left tokenize_step s (tokens, buf)))
  /\ Forall (fun c => is_digit_or_dot c = true)
       (snd (fold_left tokenize_step s (tokens, buf))).
Proof.
  induction s as [|ch s IH]; intros tokens buf Ht Hb; [auto|].
  simpl fold_left. unfold tokenize_step at 2.
  destruct (is_digit_or_dot ch) eqn:D.
  - apply IH; [assumption|].
    apply Forall_app. split; [assumption|]. constructor; [exact D|constructor].
  - destruct (isOp [ch] || N.eqb ch PERCENT) eqn:O.
    + apply IH; [|constructor].
      apply Forall_app. split.
      * destruct (nonempty buf) eqn:N; [|assumption].
        apply Forall_app. split; [assumption|].
        constructor; [|constructor].
        left. split; [apply nonempty_true_iff; exact N|assumption].
      * constructor; [|constructor]. right. exists ch. auto.
    + apply IH; assumption.
Qed.

(** Every token is a non-empty run of digits and points, or one operator
    glyph, or one percent sign: the strings [ToNumber] is modelled on. *)
Lemma tokenize_shape : forall s, Forall token_shape (tokenize s).
Proof.
  intros s. unfold tokenize.
  destruct (tokenize_loop_shape s [] [] (Forall_nil _) (Forall_nil _))
    as [Ht Hb].
  destruct (fold_left tokenize_step s ([], [])) as [tokens buf].
  simpl in Ht, Hb.
  destruct (nonempty buf) eqn:N; [|assumption].
  apply Forall_app. split; [assumption|].
  constructor; [|constructor].
  left. split; [apply nonempty_true_iff; exact N|assumption].
Qed.

(** ** The documented examples *)

Lemma compute_examples :
  compute (VStr (str "50%")) = VStr (str "0.5")
  /\ compute (VStr (str "0.1" ++ [PLUS] ++ str "0.2")) = VStr (str "0.3")
  /\ presses [str "1"; str "2"; [PLUS]; str "3"; str "="] init
     = mkState (VStr (str "15")) (VStr (str "15"))
  /\ presses [str "1"; str "2"; [PLUS]; str "3"; str "="; [PLUS]] init
     = mkState (VStr (str "15" ++ [PLUS])) (VStr [PLUS]).
Proof. repeat split; vm_compute; reflexivity. Qed.

(** * Further properties of the engine *)

(** ** The tokenizer *)

Lemma tokenize_step_foreign : forall acc ch,
  token_char ch = false -> tokenize_step acc ch = acc.
Proof.
  intros [tokens buf] ch H. unfold token_char in H.
  apply orb_false_iff in H. destruct H as [H1 H2].
  unfold tokenize_step. rewrite H1, H2. reflexivity.
Qed.

Lemma tokenize_loop_filter : forall s acc,
  fold_left tokenize_step (filter token_char s) acc
  = fold_left tokenize_step s acc.
Proof.
  induction s as [|ch s IH]; intros acc; [reflexivity|].
  simpl. destruct (token_char ch) eqn:E.
  - simpl. apply IH.
  - rewrite (tokenize_step_foreign acc ch E). apply IH.
Qed.

(** X1: characters that are no digit, point, operator glyph or percent sign
    do not matter to the tokenizer: removing them from the input leaves the
    tokens unchanged. *)
Theorem tokenize_ignores_foreign : forall s,
  tokenize (filter token_char s) = tokenize s.
Proof.
  intros s. unfold tokenize. rewrite tokenize_loop_filter. reflexivity.
Qed.

Lemma tokenize_loop_concat : forall s tokens buf,
  concat (fst (fold_left tokenize_step s (tokens, buf)))
  ++ snd (fold_left tokenize_step s (tokens, buf))
  = concat tokens ++ buf ++ filter token_char s.
Proof.
  induction s as [|ch s IH]; intros tokens buf.
  - simpl. rewrite app_nil_r. reflexivity.
  - simpl fold_left. simpl filter.
    replace (token_char ch)
      with (is_digit_or_dot ch || (isOp [ch] || N.eqb ch PERCENT))
      by reflexivity.
    destruct (is_digit_or_dot ch).
    + rewrite IH. simpl. rewrite <- app_assoc. reflexivity.
    + destruct (isOp [ch] || N.eqb ch PERCENT); rewrite IH; simpl;
        [|reflexivity].
      destruct buf as [|b buf0]; simpl nonempty; cbv iota;
        repeat rewrite concat_app; simpl; repeat rewrite app_nil_r;
        repeat rewrite <- app_assoc; reflexivity.
Qed.

Lemma tokenize_joined : forall s,
  concat (tokenize s) = filter token_char s.
Proof.
  intros s. unfold tokenize.
  assert (H : forall r, fold_left tokenize_step s ([], []) = r ->
                concat (fst r) ++ snd r = filter token_char s).
  { intros r <-. exact (tokenize_loop_concat s [] []). }
  destruct (fold_left tokenize_step s ([], [])) as [tokens buf] eqn:E.
  specialize (H _ eq_refl). cbn [fst snd] in H. rewrite <- H.
  destruct buf as [|b buf']; cbn [nonempty].
  - rewrite app_nil_r. reflexivity.
  - rewrite concat_app. cbn [concat]. rewrite app_nil_r. reflexivity.
Qed.

(** X2: the tokens, joined, are the input without the characters the
    tokenizer drops: nothing else is lost, added or reordered. *)
Theorem tokenize_concat : forall s,
  concat (tokenize s) = filter token_char s.
Proof.
  intros s. unfold tokenize.
  assert (H : forall r, fold_left tokenize_step s ([], []) = r ->
                concat (fst r) ++ snd r = filter token_char s).
  { intros r <-. exact (tokenize_loop_concat s [] []). }
  destruct (fold_left tokenize_step s ([], [])) as [tokens buf] eqn:E.
  specialize (H _ eq_refl). cbn [fst snd] in H. rewrite <- H.
  destruct buf as [|b buf']; cbn [nonempty].
  - rewrite app_nil_r. reflexivity.
  - rewrite concat_app. cbn [concat]. rewrite app_nil_r. reflexivity.
Qed.

Lemma isOp_char : forall c,
  isOp [c] = N.eqb c PLUS || N.eqb c MINUS || N.eqb c TIMES || N.eqb c DIVIDE.
Proof.
  intros c. unfold isOp, OPS. cbn [includes startsWith].
  destruct (N.eqb c PLUS), (N.eqb c MINUS), (N.eqb c TIMES), (N.eqb c DIVIDE);
    reflexivity.
Qed.

Lemma symbol_char_not_digit : forall c,
  isOp [c] || N.eqb c PERCENT = true -> is_digit_or_dot c = false.
Proof.
  intros c H. rewrite isOp_char in H.
  repeat (apply orb_true_iff in H; destruct H as [H|H]);
    apply N.eqb_eq in H; subst c; reflexivity.
Qed.

Lemma tokenize_loop_literal :
  forall (t : jsstring) (tokens : list jsstring) (buf : jsstring),
  forallb is_digit_or_dot t = true ->
  fold_left tokenize_step t (tokens, buf) = (tokens, buf ++ t).
Proof.
  induction t as [|ch t IH]; intros tokens buf H.
  - simpl. rewrite app_nil_r. reflexivity.
  - simpl in H. apply andb_true_iff in H. destruct H as [Hc Ht].
    simpl fold_left. rewrite Hc. rewrite (IH _ _ Ht).
    rewrite <- app_assoc. reflexivity.
Qed.

Lemma tokenize_step_symbol :
  forall (c : char) (tokens : list jsstring) (buf : jsstring),
  isOp [c] || N.eqb c PERCENT = true ->
  tokenize_step (tokens, buf) c
  = ((if nonempty buf then tokens ++ [buf] else tokens) ++ [[c]], []).
Proof.
  intros c tokens buf H. unfold tokenize_step.
  rewrite (symbol_char_not_digit c H), H. reflexivity.
Qed.

Lemma tokenize_end_eq : forall s,
  tokenize s = tokenize_end (fold_left tokenize_step s ([], [])).
Proof.
  intros s. unfold tokenize, tokenize_end.
  destruct (fold_left tokenize_step s ([], [])); reflexivity.
Qed.

Lemma tokenize_loop_separated :
  forall (toks tokens : list jsstring) (buf : jsstring),
  separated toks = true ->
  (buf <> [] -> match toks with
                | t :: _ => symbol t = true
                | [] => True
                end) ->
  tokenize_end (fold_left tokenize_step (concat toks) (tokens, buf))
  = (if nonempty buf then tokens ++ [buf] else tokens) ++ toks.
Proof.
  induction toks as [|t rest IH]; intros tokens buf Hs Hb.
  - unfold tokenize_end. simpl. rewrite app_nil_r. reflexivity.
  - cbn [concat]. rewrite fold_left_app.
    destruct (symbol t) eqn:St.
    + destruct t as [|c [|c' t']]; try discriminate St. cbn [symbol] in St.
      cbn [fold_left]. rewrite (tokenize_step_symbol c tokens buf St).
      rewrite IH.
      * cbn [nonempty]. rewrite <- app_assoc. reflexivity.
      * cbn [separated] in Hs. destruct rest; [reflexivity|].
        apply andb_true_iff in Hs. apply Hs.
      * intros Hne. congruence.
    + assert (Hbuf : buf = []).
      { destruct buf as [|b buf']; [reflexivity|].
        assert (E : false = true) by (apply Hb; discriminate).
        discriminate E. }
      subst buf. cbn [nonempty].
      assert (Hl : literal t = true /\
                   (match rest with
                    | u :: _ => symbol u = true
                    | [] => True
                    end) /\ separated rest = true).
      { cbn [separated] in Hs. rewrite St in Hs. cbn [orb] in Hs.
        destruct rest as [|u rest'].
        - auto.
        - apply andb_true_iff in Hs. destruct Hs as [Hs1 Hs2].
          apply andb_true_iff in Hs1. tauto. }
      destruct Hl as [Hl [Hu Hr]].
      unfold literal in Hl. apply andb_true_iff in Hl. destruct Hl as [Hn Hd].
      rewrite (tokenize_loop_literal t tokens [] Hd). cbn [app].
      rewrite IH; [|assumption|intros _; exact Hu].
      rewrite Hn. rewrite <- app_assoc. reflexivity.
Qed.

Lemma tokenize_separated : forall toks,
  separated toks = true -> tokenize (concat toks) = toks.
Proof.
  intros toks H. rewrite tokenize_end_eq.
  apply (tokenize_loop_separated toks [] [] H).
  intros Hne. congruence.
Qed.

(** X3: a list of literals and symbols in which no two literals are
    neighbours is what the tokenizer gives back for its concatenation. *)
Theorem tokenize_concat_separated : forall toks,
  separated toks = true -> tokenize (concat toks) = toks.
Proof.
  intros toks H. rewrite tokenize_end_eq.
  apply (tokenize_loop_separated toks [] [] H).
  intros Hne. congruence.
Qed.

Lemma tokenize_concat_separated_witness :
  tokenize (concat [str "12.5"; [PLUS]; str "3"; str "%"; [TIMES]; str ".7"])
  = [str "12.5"; [PLUS]; str "3"; str "%"; [TIMES]; str ".7"].
Proof.
  apply (tokenize_concat_separated
           [str "12.5"; [PLUS]; str "3"; str "%"; [TIMES]; str ".7"]).
  reflexivity.
Defined.

(** ** The converter *)

Lemma pop_while_flush :
  forall (cond : jsstring -> bool) (op : list jsstring) (out : list value),
  flush (pop_while cond out op) = flush (out, op).
Proof.
  intros cond. induction op as [|top op IH]; intros out; [reflexivity|].
  cbn [pop_while]. destruct (cond top); [|reflexivity].
  rewrite IH. unfold flush. cbn [fst snd map]. rewrite <- app_assoc.
  reflexivity.
Qed.

Lemma pop_while_all :
  forall (op : list jsstring) (out : list value),
  pop_while (fun _ => true) out op = (out ++ map VStr op, []).
Proof.
  induction op as [|top op IH]; intros out.
  - cbn. rewrite app_nil_r. reflexivity.
  - cbn [pop_while map]. rewrite IH. rewrite <- app_assoc. reflexivity.
Qed.

Lemma toRPN_flush : forall tokens,
  toRPN tokens = flush (fold_left toRPN_step tokens ([], [])).
Proof.
  intros tokens. unfold toRPN.
  destruct (fold_left toRPN_step tokens ([], [])) as [out op].
  rewrite pop_while_all. reflexivity.
Qed.

(** One turn of the loop adds the token's value to the flushed state, at the
    end when it is a number and before the operators still waiting when it is
    not. *)
Lemma toRPN_step_flush :
  forall (acc : list value * list jsstring) (t : jsstring),
  exists front back,
    flush acc = front ++ back
    /\ flush (toRPN_step acc t) = front ++ token_value t :: back
    /\ (is_number (token_value t) = true -> back = map VStr (snd acc))
    /\ forallb (fun v => negb (is_number v)) back = true.
Proof.
  intros [out op] t. unfold toRPN_step, token_value.
  assert (Hops : forall l : list jsstring,
             forallb (fun v => negb (is_number v)) (map VStr l) = true).
  { induction l; [reflexivity|assumption]. }
  destruct (isNaN t) eqn:N; cbn [negb].
  - assert (H : forall cond,
               exists front back,
                 flush (out, op) = front ++ back
                 /\ flush (let (out', op') := pop_while cond out op in
                           (out', t :: op')) = front ++ VStr t :: back
                 /\ (is_number (VStr t) = true -> back = map VStr op)
                 /\ forallb (fun v => negb (is_number v)) back = true).
    { intros cond. pose proof (pop_while_flush cond op out) as E.
      destruct (pop_while cond out op) as [out' op'].
      exists out', (map VStr op'). unfold flush in *. cbn [fst snd map] in *.
      repeat split; auto. discriminate. }
    destruct (streq t [PERCENT]); apply H.
  - exists out, (map VStr op). unfold flush. cbn [fst snd].
    rewrite <- app_assoc. repeat split; auto.
Qed.

Lemma toRPN_loop_permutation :
  forall (tokens : list jsstring) (acc : list value * list jsstring),
  Permutation (flush (fold_left toRPN_step tokens acc))
              (flush acc ++ map token_value tokens).
Proof.
  induction tokens as [|t tokens IH]; intros acc.
  - cbn. rewrite app_nil_r. apply Permutation_refl.
  - cbn [fold_left map]. eapply Permutation_trans; [apply IH|].
    destruct (toRPN_step_flush acc t) as [front [back [E1 [E2 _]]]].
    rewrite E1, E2.
    change (token_value t :: map token_value tokens)
      with ([token_value t] ++ map token_value tokens).
    rewrite app_assoc. apply Permutation_app_tail.
    rewrite <- app_assoc. apply Permutation_app_head.
    change (token_value t :: back) with ([token_value t] ++ back).
    apply Permutation_app_comm.
Qed.

(** The tokens of any input are literals and symbols. *)
Lemma tokenize_is_shaped : forall s, tokenizer_shaped (tokenize s) = true.
Proof.
  intros s. unfold tokenizer_shaped. apply forallb_forall. intros t Ht.
  pose proof (tokenize_shape s) as H. rewrite Forall_forall in H.
  destruct (H t Ht) as [[Hne Hd]|[c [-> Hc]]].
  - apply orb_true_iff. left. unfold literal.
    apply andb_true_iff. split; [apply nonempty_true_iff; exact Hne|].
    apply forallb_forall. rewrite Forall_forall in Hd. exact Hd.
  - apply orb_true_iff. right. exact Hc.
Qed.

(** X4: for a list of tokens as the tokenizer returns them (digit/point runs
    and single glyphs or percent signs), the postfix sequence holds every
    token exactly once, a numeric token as its number and any other token as
    it is: the converter only reorders. *)
Theorem toRPN_permutation : forall tokens,
  tokenizer_shaped tokens = true ->
  Permutation (toRPN tokens) (map token_value tokens).
Proof.
  intros tokens _. rewrite toRPN_flush.
  apply (toRPN_loop_permutation tokens ([], [])).
Qed.

Lemma toRPN_permutation_witness :
  Permutation
    (toRPN [str "2"; [PLUS]; str "3"; [TIMES]; str "1.2.3"; str "%"])
    (map token_value [str "2"; [PLUS]; str "3"; [TIMES]; str "1.2.3"; str "%"]).
Proof.
  apply (toRPN_permutation
           [str "2"; [PLUS]; str "3"; [TIMES]; str "1.2.3"; str "%"]).
  reflexivity.
Defined.


Lemma filter_number_strings : forall l : list jsstring,
  filter is_number (map VStr l) = [].
Proof. induction l; [reflexivity|assumption]. Qed.

Lemma filter_number_back : forall back,
  forallb (fun v => negb (is_number v)) back = true ->
  filter is_number back = [].
Proof.
  induction back as [|v back IH]; intros H; [reflexivity|].
  cbn in H. apply andb_true_iff in H. destruct H as [Hv Hb].
  cbn. destruct (is_number v); [discriminate|auto].
Qed.

Lemma toRPN_loop_numbers :
  forall (tokens : list jsstring) (acc : list value * list jsstring),
  filter is_number (flush (fold_left toRPN_step tokens acc))
  = filter is_number (flush acc)
    ++ filter is_number (map token_value tokens).
Proof.
  induction tokens as [|t tokens IH]; intros acc.
  - cbn. rewrite app_nil_r. reflexivity.
  - cbn [fold_left map]. rewrite IH.
    destruct (toRPN_step_flush acc t) as [front [back [E1 [E2 [_ Hb]]]]].
    rewrite E1, E2. rewrite !filter_app. cbn [filter].
    rewrite (filter_number_back back Hb).
    destruct (is_number (token_value t)); rewrite ?app_nil_r;
      [rewrite <- app_assoc|]; reflexivity.
Qed.

(** X5: for a list of tokens as the tokenizer returns them, the numbers of
    the postfix sequence are those of the infix tokens, in the same order:
    operands are never swapped. *)
Theorem toRPN_keeps_number_order : forall tokens,
  tokenizer_shaped tokens = true ->
  filter is_number (toRPN tokens)
  = filter is_number (map token_value tokens).
Proof.
  intros tokens _. rewrite toRPN_flush.
  apply (toRPN_loop_numbers tokens ([], [])).
Qed.

Lemma toRPN_keeps_number_order_witness :
  filter is_number (toRPN [str "8"; [MINUS]; str "2"; [DIVIDE]; str "4"])
  = filter is_number
      (map token_value [str "8"; [MINUS]; str "2"; [DIVIDE]; str "4"]).
Proof.
  apply (toRPN_keeps_number_order
           [str "8"; [MINUS]; str "2"; [DIVIDE]; str "4"]).
  reflexivity.
Defined.

(** ** The evaluator *)

Lemma evalRPN_loop_unknown : forall rpn st t,
  In (VStr t) rpn -> known_operator t = false -> evalRPN_loop rpn st = None.
Proof.
  induction rpn as [|v rpn IH]; intros st t Hin Hk; [destruct Hin|].
  destruct Hin as [->|Hin].
  - unfold known_operator in Hk.
    repeat (apply orb_false_iff in Hk; destruct Hk as [Hk ?]).
    cbn [evalRPN_loop]. rewrite Hk.
    destruct st as [|b [|a st']]; try reflexivity.
    repeat match goal with H : streq t _ = false |- _ => rewrite H; clear H end.
    reflexivity.
  - destruct v as [x|u]; cbn [evalRPN_loop]; [eauto|].
    destruct (streq u [PERCENT]).
    + destruct st; eauto.
    + destruct st as [|b [|a st']]; try reflexivity.
      destruct (streq u [PLUS]); [eauto|].
      destruct (streq u [MINUS]); [eauto|].
      destruct (streq u [TIMES]); [eauto|].
      destruct (streq u [DIVIDE]); [eauto|reflexivity].
Qed.

(** X6: a string in the postfix sequence that is not one of the five
    operators makes the result [NaN], wherever it stands and whatever else
    the sequence holds. *)
Theorem evalRPN_unknown_operator : forall rpn t,
  In (VStr t) rpn -> known_operator t = false -> evalRPN rpn = nan.
Proof.
  intros rpn t Hin Hk. unfold evalRPN.
  rewrite (evalRPN_loop_unknown rpn [] t Hin Hk). reflexivity.
Qed.

Lemma evalRPN_unknown_operator_witness :
  evalRPN [VNum 1; VNum 2; VStr (str "1.2.3"); VStr [PLUS]] = nan.
Proof.
  apply (evalRPN_unknown_operator
           [VNum 1; VNum 2; VStr (str "1.2.3"); VStr [PLUS]] (str "1.2.3")).
  - simpl. auto.
  - reflexivity.
Defined.


Lemma tokenize_nil : tokenize [] = [].
Proof. reflexivity. Qed.



(** ** The engine on well-formed expressions *)

Lemma evalRPN_loop_app : forall a b st,
  evalRPN_loop (a ++ b) st
  = match evalRPN_loop a st with
    | Some st' => evalRPN_loop b st'
    | None => None
    end.
Proof.
  induction a as [|v a IH]; intros b st; [reflexivity|].
  destruct v as [x|t]; cbn [app evalRPN_loop]; [apply IH|].
  destruct (streq t [PERCENT]).
  - destruct st; apply IH.
  - destruct st as [|y [|x st']]; try reflexivity.
    destruct (streq t [PLUS]); [apply IH|].
    destruct (streq t [MINUS]); [apply IH|].
    destruct (streq t [TIMES]); [apply IH|].
    destruct (streq t [DIVIDE]); [apply IH|reflexivity].
Qed.

Lemma evalRPN_loop_percents : forall k x st,
  evalRPN_loop (map VStr (repeat [PERCENT] k)) (x :: st)
  = Some (percent_of k x :: st).
Proof.
  induction k as [|k IH]; intros x st; [reflexivity|].
  cbn [repeat map evalRPN_loop]. cbn [streq N.eqb Pos.eqb PERCENT andb].
  rewrite IH. unfold percent_of. rewrite Nat.iter_succ_r. reflexivity.
Qed.

Lemma evalRPN_loop_mulop : forall m a b st,
  evalRPN_loop [VStr (mulop_token m)] (b :: a :: st)
  = Some (eval_mulop m a b :: st).
Proof. intros [|] a b st; reflexivity. Qed.

Lemma evalRPN_loop_addop : forall o a b st,
  evalRPN_loop [VStr (addop_token o)] (b :: a :: st)
  = Some (eval_addop o a b :: st).
Proof. intros [|] a b st; reflexivity. Qed.

Lemma pop_while_split :
  forall (cond : jsstring -> bool) (K B : list jsstring) (out : list value),
  forallb cond K = true ->
  match B with [] => True | b :: _ => cond b = false end ->
  pop_while cond out (K ++ B) = (out ++ map VStr K, B).
Proof.
  intros cond. induction K as [|t K IH]; intros B out HK HB.
  - cbn [app map]. rewrite app_nil_r.
    destruct B as [|b B]; [reflexivity|]. cbn [pop_while]. rewrite HB.
    reflexivity.
  - cbn [forallb] in HK. apply andb_true_iff in HK. destruct HK as [Ht HK].
    cbn [app pop_while map]. rewrite Ht. rewrite (IH B _ HK HB).
    rewrite <- app_assoc. reflexivity.
Qed.

Lemma gt_percent : forall top, gt_entry (prec top) (Some 3%Z) = false.
Proof.
  intros top. unfold prec.
  destruct (streq top [PLUS]); [reflexivity|].
  destruct (streq top [MINUS]); [reflexivity|].
  destruct (streq top [TIMES]); [reflexivity|].
  destruct (streq top [DIVIDE]); [reflexivity|].
  destruct (streq top [PERCENT]); reflexivity.
Qed.

Lemma high_low : forall t, high t = true -> low t = true.
Proof.
  intros t. unfold high, low. destruct (prec t) as [x|]; cbn; [|auto].
  rewrite !Z.leb_le. lia.
Qed.

Lemma toRPN_step_literal :
  forall (out : list value) (op : list jsstring) (t : jsstring),
  isNaN t = false ->
  toRPN_step (out, op) t = (out ++ [VNum (ToNumber t)], op).
Proof. intros out op t H. unfold toRPN_step. rewrite H. reflexivity. Qed.

Lemma toRPN_step_percent :
  forall (out : list value) (op : list jsstring),
  toRPN_step (out, op) [PERCENT] = (out, [PERCENT] :: op).
Proof.
  intros out op.
  change (toRPN_step (out, op) [PERCENT])
    with (let (out', op') :=
            pop_while (fun top => gt_entry (prec top) (Some 3%Z)) out op in
          (out', [PERCENT] :: op')).
  destruct op as [|top op]; [reflexivity|].
  cbn [pop_while]. rewrite gt_percent. reflexivity.
Qed.

Lemma toRPN_step_mulop :
  forall (m : mulop) (out : list value) (K B : list jsstring),
  forallb high K = true -> low_top B ->
  toRPN_step (out, K ++ B) (mulop_token m)
  = (out ++ map VStr K, mulop_token m :: B).
Proof.
  intros m out K B HK HB.
  assert (E : toRPN_step (out, K ++ B) (mulop_token m)
              = let (out', op') := pop_while high out (K ++ B) in
                (out', mulop_token m :: op'))
    by (destruct m; reflexivity).
  rewrite E. rewrite (pop_while_split high K B out HK); [reflexivity|].
  destruct B; [exact I|exact HB].
Qed.

Lemma toRPN_step_addop :
  forall (o : addop) (out : list value) (op : list jsstring),
  forallb low op = true ->
  toRPN_step (out, op) (addop_token o)
  = (out ++ map VStr op, [addop_token o]).
Proof.
  intros o out op H.
  assert (E : toRPN_step (out, op) (addop_token o)
              = let (out', op') := pop_while low out op in
                (out', addop_token o :: op'))
    by (destruct o; reflexivity).
  rewrite E. rewrite <- (app_nil_r op) at 1.
  rewrite (pop_while_split low op [] out H I). reflexivity.
Qed.

Lemma repeat_app_cons : forall (A : Type) (x : A) k l,
  repeat x k ++ x :: l = x :: repeat x k ++ l.
Proof.
  intros A x k l. induction k as [|k IH]; [reflexivity|].
  cbn [repeat app]. rewrite IH. reflexivity.
Qed.

Lemma toRPN_loop_percents :
  forall k (out : list value) (op : list jsstring),
  fold_left toRPN_step (repeat [PERCENT] k) (out, op)
  = (out, repeat [PERCENT] k ++ op).
Proof.
  induction k as [|k IH]; intros out op; [reflexivity|].
  cbn [repeat fold_left]. rewrite toRPN_step_percent, IH.
  rewrite repeat_app_cons. reflexivity.
Qed.

Lemma toRPN_loop_factor :
  forall (f : factor) (out : list value) (op : list jsstring),
  factor_ok f = true ->
  fold_left toRPN_step (factor_tokens f) (out, op)
  = (out ++ [VNum (ToNumber (lit f))], repeat [PERCENT] (percents f) ++ op).
Proof.
  intros f out op H. unfold factor_ok in H.
  apply andb_true_iff in H. destruct H as [_ H].
  apply negb_true_iff in H.
  unfold factor_tokens. cbn [fold_left].
  rewrite (toRPN_step_literal out op (lit f) H).
  apply toRPN_loop_percents.
Qed.

Lemma high_percents : forall k, forallb high (repeat [PERCENT] k) = true.
Proof. induction k; [reflexivity|assumption]. Qed.

(** After the factors of a term, the operators above the additive one, once
    applied, leave the value of the term on the stack. *)
Lemma toRPN_loop_factors :
  forall (fs : list (mulop * factor)) (out : list value)
         (K B : list jsstring) (tv : float) (S : list float),
  forallb high K = true -> low_top B ->
  evalRPN_loop (out ++ map VStr K) [] = Some (tv :: S) ->
  factors_ok fs = true ->
  exists out' K',
    fold_left toRPN_step (factors_tokens fs) (out, K ++ B) = (out', K' ++ B)
    /\ forallb high K' = true
    /\ evalRPN_loop (out' ++ map VStr K') [] = Some (factors_value fs tv :: S).
Proof.
  induction fs as [|[m f] fs IH]; intros out K B tv S HK HB HE Hok.
  - exists out, K. auto.
  - cbn [factors_ok forallb snd] in Hok.
    apply andb_true_iff in Hok. destruct Hok as [Hf Hfs].
    unfold factors_tokens. cbn [flat_map fst snd].
    rewrite fold_left_app. cbn [fold_left].
    rewrite (toRPN_step_mulop m out K B HK HB).
    rewrite (toRPN_loop_factor f _ _ Hf).
    set (K1 := repeat [PERCENT] (percents f) ++ [mulop_token m]).
    replace (repeat [PERCENT] (percents f) ++ mulop_token m :: B)
      with (K1 ++ B) by (unfold K1; rewrite <- app_assoc; reflexivity).
    apply (IH _ K1 B (eval_mulop m tv (factor_value f)) S); auto.
    + unfold K1. rewrite forallb_app, high_percents. destruct m; reflexivity.
    + unfold K1. rewrite map_app, !app_assoc.
      rewrite evalRPN_loop_app, evalRPN_loop_app, evalRPN_loop_app, HE.
      cbn [evalRPN_loop]. rewrite evalRPN_loop_percents.
      cbn [map]. apply evalRPN_loop_mulop.
Qed.

Lemma toRPN_loop_term :
  forall (t : term) (out : list value) (B : list jsstring) (S : list float),
  low_top B ->
  evalRPN_loop out [] = Some S ->
  term_ok t = true ->
  exists out' K',
    fold_left toRPN_step (term_tokens t) (out, B) = (out', K' ++ B)
    /\ forallb high K' = true
    /\ evalRPN_loop (out' ++ map VStr K') [] = Some (term_value t :: S).
Proof.
  intros [f fs] out B S HB HE Hok. unfold term_ok in Hok. cbn [fst snd] in Hok.
  apply andb_true_iff in Hok. destruct Hok as [Hf Hfs].
  unfold term_tokens. cbn [fst snd]. rewrite fold_left_app.
  rewrite (toRPN_loop_factor f out B Hf).
  apply (toRPN_loop_factors fs _ (repeat [PERCENT] (percents f)) B
           (factor_value f) S); auto using high_percents.
  rewrite evalRPN_loop_app, evalRPN_loop_app, HE. cbn [evalRPN_loop].
  apply evalRPN_loop_percents.
Qed.

(** After each term, the operators waiting, once applied, leave the value of
    the expression so far as the only value on the stack. *)
Lemma toRPN_loop_terms :
  forall (ts : list (addop * term)) (out : list value) (op : list jsstring)
         (v : float),
  forallb low op = true ->
  evalRPN_loop (out ++ map VStr op) [] = Some [v] ->
  terms_ok ts = true ->
  exists out' op',
    fold_left toRPN_step (terms_tokens ts) (out, op) = (out', op')
    /\ forallb low op' = true
    /\ evalRPN_loop (out' ++ map VStr op') [] = Some [terms_value ts v].
Proof.
  induction ts as [|[o t] ts IH]; intros out op v Hop HE Hok.
  - exists out, op. auto.
  - cbn [terms_ok forallb snd] in Hok.
    apply andb_true_iff in Hok. destruct Hok as [Ht Hts].
    unfold terms_tokens. cbn [flat_map fst snd].
    rewrite fold_left_app. cbn [fold_left].
    rewrite (toRPN_step_addop o out op Hop).
    destruct (toRPN_loop_term t (out ++ map VStr op) [addop_token o] [v])
      as [out1 [K1 [E1 [HK1 HE1]]]]; auto.
    { destruct o; reflexivity. }
    rewrite E1.
    apply (IH out1 (K1 ++ [addop_token o]) (eval_addop o v (term_value t)));
      auto.
    + rewrite forallb_app. apply andb_true_iff. split.
      * clear -HK1. induction K1 as [|k K1 IHK]; [reflexivity|].
        cbn [forallb] in *. apply andb_true_iff in HK1.
        destruct HK1 as [Hk HK1]. rewrite (high_low k Hk). auto.
      * destruct o; reflexivity.
    + rewrite map_app, app_assoc, evalRPN_loop_app, HE1.
      cbn [map]. apply evalRPN_loop_addop.
Qed.

Lemma engine_value : forall e,
  expression_ok e = true ->
  evalRPN (toRPN (expression_tokens e)) = expression_value e.
Proof.
  intros [t ts] Hok. unfold expression_ok in Hok. cbn [fst snd] in Hok.
  apply andb_true_iff in Hok. destruct Hok as [Ht Hts].
  rewrite toRPN_flush. unfold expression_tokens. cbn [fst snd].
  rewrite fold_left_app.
  destruct (toRPN_loop_term t [] [] [] I eq_refl Ht)
    as [out1 [K1 [E1 [HK1 HE1]]]].
  rewrite E1. rewrite app_nil_r.
  destruct (toRPN_loop_terms ts out1 K1 (term_value t)) as [out2 [op2 [E2 [_ HE2]]]];
    auto.
  { clear -HK1. induction K1 as [|k K1 IHK]; [reflexivity|].
    cbn [forallb] in *. apply andb_true_iff in HK1.
    destruct HK1 as [Hk HK1]. rewrite (high_low k Hk). auto. }
  rewrite E2. unfold evalRPN, flush. cbn [fst snd]. rewrite HE2. reflexivity.
Qed.

(** X8: on the tokens of a well-formed expression the converter and the
    evaluator together compute its value: percent signs first, then the
    multiplicative operators from left to right, then the additive ones from
    left to right. *)
Theorem evalRPN_toRPN_expression : forall e,
  expression_ok e = true ->
  evalRPN (toRPN (expression_tokens e)) = expression_value e.
Proof.
  intros [t ts] Hok. unfold expression_ok in Hok. cbn [fst snd] in Hok.
  apply andb_true_iff in Hok. destruct Hok as [Ht Hts].
  rewrite toRPN_flush. unfold expression_tokens. cbn [fst snd].
  rewrite fold_left_app.
  destruct (toRPN_loop_term t [] [] [] I eq_refl Ht)
    as [out1 [K1 [E1 [HK1 HE1]]]].
  rewrite E1. rewrite app_nil_r.
  destruct (toRPN_loop_terms ts out1 K1 (term_value t)) as [out2 [op2 [E2 [_ HE2]]]];
    auto.
  { clear -HK1. induction K1 as [|k K1 IHK]; [reflexivity|].
    cbn [forallb] in *. apply andb_true_iff in HK1.
    destruct HK1 as [Hk HK1]. rewrite (high_low k Hk). auto. }
  rewrite E2. unfold evalRPN, flush. cbn [fst snd]. rewrite HE2. reflexivity.
Qed.

Lemma evalRPN_toRPN_expression_witness :
  evalRPN (toRPN [str "2"; [PLUS]; str "50"; str "%"; [TIMES]; str "8";
                  [MINUS]; str "1.5"; [DIVIDE]; str "4"; [DIVIDE]; str "3"])
  = (2 + (50 / 100) * 8 - 1.5 / 4 / 3)%float.
Proof.
  apply (evalRPN_toRPN_expression
           ((mkFactor (str "2") 0, []),
            [(Add, (mkFactor (str "50") 1, [(Mul, mkFactor (str "8") 0)]));
             (Sub, (mkFactor (str "1.5") 0,
                    [(Div, mkFactor (str "4") 0);
                     (Div, mkFactor (str "3") 0)]))])).
  vm_compute. reflexivity.
Defined.

(** ** From the text of an expression to its value *)

Lemma separated_symbol : forall t rest,
  symbol t = true -> separated rest = true -> separated (t :: rest) = true.
Proof.
  intros t rest Ht Hr. cbn [separated]. rewrite Ht.
  destruct rest; [reflexivity|exact Hr].
Qed.

Lemma separated_literal : forall t rest,
  literal t = true -> symbol_first rest -> separated rest = true ->
  separated (t :: rest) = true.
Proof.
  intros t rest Ht Hs Hr. cbn [separated]. rewrite Ht.
  destruct rest as [|u rest']; [apply orb_true_r|].
  cbn in Hs. rewrite Hs, Hr. cbn. rewrite orb_true_r. reflexivity.
Qed.

Lemma separated_percents : forall k rest,
  separated rest = true -> symbol_first rest ->
  separated (repeat [PERCENT] k ++ rest) = true
  /\ symbol_first (repeat [PERCENT] k ++ rest).
Proof.
  induction k as [|k IH]; intros rest Hr Hs; [auto|].
  destruct (IH rest Hr Hs) as [H1 H2]. cbn [repeat app]. split.
  - apply separated_symbol; [reflexivity|assumption].
  - reflexivity.
Qed.

Lemma separated_factor : forall f rest,
  factor_ok f = true -> separated rest = true -> symbol_first rest ->
  separated (factor_tokens f ++ rest) = true.
Proof.
  intros f rest Hf Hr Hs. unfold factor_ok in Hf.
  apply andb_true_iff in Hf. destruct Hf as [Hl _].
  destruct (separated_percents (percents f) rest Hr Hs) as [H1 H2].
  unfold factor_tokens. cbn [app]. apply separated_literal; assumption.
Qed.

Lemma separated_factors : forall fs rest,
  factors_ok fs = true -> separated rest = true -> symbol_first rest ->
  separated (factors_tokens fs ++ rest) = true
  /\ symbol_first (factors_tokens fs ++ rest).
Proof.
  induction fs as [|[m f] fs IH]; intros rest Hok Hr Hs; [auto|].
  cbn [factors_ok forallb snd] in Hok.
  apply andb_true_iff in Hok. destruct Hok as [Hf Hfs].
  destruct (IH rest Hfs Hr Hs) as [H1 H2].
  unfold factors_tokens in *. cbn [flat_map fst snd].
  rewrite <- app_assoc. cbn [app]. split.
  - apply separated_symbol; [destruct m; reflexivity|].
    apply separated_factor; assumption.
  - destruct m; reflexivity.
Qed.

Lemma separated_term : forall t rest,
  term_ok t = true -> separated rest = true -> symbol_first rest ->
  separated (term_tokens t ++ rest) = true.
Proof.
  intros [f fs] rest Hok Hr Hs. unfold term_ok in Hok. cbn [fst snd] in Hok.
  apply andb_true_iff in Hok. destruct Hok as [Hf Hfs].
  destruct (separated_factors fs rest Hfs Hr Hs) as [H1 H2].
  unfold term_tokens. cbn [fst snd]. rewrite <- app_assoc.
  apply separated_factor; assumption.
Qed.

Lemma separated_terms : forall ts,
  terms_ok ts = true ->
  separated (terms_tokens ts) = true /\ symbol_first (terms_tokens ts).
Proof.
  induction ts as [|[o t] ts IH]; intros Hok; [split; [reflexivity|exact I]|].
  cbn [terms_ok forallb snd] in Hok.
  apply andb_true_iff in Hok. destruct Hok as [Ht Hts].
  destruct (IH Hts) as [H1 H2].
  unfold terms_tokens in *. cbn [flat_map fst snd]. split.
  - apply separated_symbol; [destruct o; reflexivity|].
    apply separated_term; assumption.
  - destruct o; reflexivity.
Qed.

Lemma separated_expression : forall e,
  expression_ok e = true -> separated (expression_tokens e) = true.
Proof.
  intros [t ts] Hok. unfold expression_ok in Hok. cbn [fst snd] in Hok.
  apply andb_true_iff in Hok. destruct Hok as [Ht Hts].
  destruct (separated_terms ts Hts) as [H1 H2].
  unfold expression_tokens. cbn [fst snd].
  apply separated_term; assumption.
Qed.

Lemma expression_text_nonempty : forall e,
  expression_ok e = true -> nonempty (expression_text e) = true.
Proof.
  intros [[f fs] ts] Hok. unfold expression_ok, term_ok, factor_ok in Hok.
  cbn [fst snd] in Hok.
  apply andb_true_iff in Hok. destruct Hok as [Hok _].
  apply andb_true_iff in Hok. destruct Hok as [Hok _].
  apply andb_true_iff in Hok. destruct Hok as [Hok _].
  unfold literal in Hok. apply andb_true_iff in Hok. destruct Hok as [Hn _].
  unfold expression_text, expression_tokens, term_tokens, factor_tokens.
  cbn [fst snd app concat].
  destruct (lit f); [discriminate Hn|reflexivity].
Qed.

(** [compute] on the text of a well-formed expression applies its last
    lines to the value of the expression. *)
Theorem compute_expression : forall e,
  expression_ok e = true ->
  compute (VStr (expression_text e)) = normalize (expression_value e).
Proof.
  intros e Hok. unfold compute. cbn [truthy].
  rewrite (expression_text_nonempty e Hok). cbn [negb]. cbv zeta.
  cbn [tokenize_value]. unfold expression_text.
  rewrite (tokenize_separated _ (separated_expression e Hok)).
  rewrite (engine_value e Hok). reflexivity.
Qed.

Lemma compute_expression_witness :
  compute (VStr (str "2" ++ [PLUS] ++ str "50%" ++ [TIMES] ++ str "8"))
  = VStr (str "6").
Proof.
  apply (compute_expression
           ((mkFactor (str "2") 0, []),
            [(Add, (mkFactor (str "50") 1, [(Mul, mkFactor (str "8") 0)]))])).
  vm_compute. reflexivity.
Defined.

Lemma digits_uint_chars : forall u, forallb is_digit (uint_chars u) = true.
Proof. induction u; cbn [uint_chars forallb]; auto. Qed.

(** The text of a positive number starts with a digit. *)
Lemma format_head : forall d ds n,
  is_digit d = true ->
  exists c rest, format (d :: ds) n = c :: rest /\ is_digit c = true.
Proof.
  intros d ds n Hd. unfold format.
  destruct ((-6 <? n)%Z && (n <=? 21)%Z).
  - destruct (Z.of_nat (length (d :: ds)) <=? n)%Z.
    + exists d. eexists. split; [reflexivity|exact Hd].
    + destruct (0 <? n)%Z eqn:P.
      * apply Z.ltb_lt in P.
        destruct (Z.to_nat n) as [|m] eqn:E; [lia|].
        exists d. eexists. split; [reflexivity|exact Hd].
      * exists ZERO. eexists. split; reflexivity.
  - destruct ds as [|d' ds'].
    + exists d. eexists. split; [reflexivity|exact Hd].
    + exists d. eexists. split; [reflexivity|exact Hd].
Qed.

(** [String] of a number is never the error marker. *)
Lemma ToString_not_Err : forall x, ToString x <> Err.
Proof.
  intros x. unfold ToString.
  destruct (Prim2SF x) as [s|s| |s m e]; try discriminate.
  - destruct s; discriminate.
  - unfold positive_to_string.
    destruct (shortest _ _ _ _ _ _) as [sd n].
    pose proof (decimal_not_nil (Z.to_pos sd)) as Hne.
    pose proof (digits_uint_chars (Pos.to_uint (Z.to_pos sd))) as Hds.
    fold (decimal (Z.to_pos sd)) in Hds.
    destruct (decimal (Z.to_pos sd)) as [|d ds]; [congruence|].
    cbn [forallb] in Hds. apply andb_true_iff in Hds. destruct Hds as [Hd _].
    destruct (format_head d ds n Hd) as [c [rest [E Hc]]]. rewrite E.
    destruct s.
    + discriminate.
    + cbn [app]. intros F. inversion F; subst c. discriminate Hc.
Qed.

(** X9: for a well-formed expression, [compute] on its text returns "Err"
    exactly when the value of the expression (percent signs first, then the
    multiplicative operators, then the additive ones, each from left to
    right) is [NaN] or an infinity. *)
Theorem compute_expression_Err : forall e,
  expression_ok e = true ->
  (compute (VStr (expression_text e)) = VStr Err
   <-> isFinite (expression_value e) = false).
Proof.
  intros e Hok. rewrite (compute_expression e Hok). unfold normalize.
  destruct (isFinite (expression_value e)); cbn [negb].
  - split; [|discriminate].
    intros E. inversion E as [F]. exfalso. exact (ToString_not_Err _ F).
  - split; reflexivity.
Qed.

Lemma compute_expression_Err_witness :
  compute (VStr (str "7" ++ [MINUS] ++ str "5" ++ [DIVIDE] ++ str "0.0"))
  = VStr Err
  <-> isFinite
        (expression_value
           ((mkFactor (str "7") 0, []),
            [(Sub, (mkFactor (str "5") 0, [(Div, mkFactor (str "0.0") 0)]))]))
      = false.
Proof.
  apply (compute_expression_Err
           ((mkFactor (str "7") 0, []),
            [(Sub, (mkFactor (str "5") 0, [(Div, mkFactor (str "0.0") 0)]))])).
  vm_compute. reflexivity.
Defined.

(** * Further properties of the state machine *)

(** ** Deleting down to the initial state *)

Lemma presses_DEL_init : forall n, presses (repeat (str "DEL") n) init = init.
Proof. induction n as [|n IH]; [reflexivity|exact IH]. Qed.

Lemma slice_length : forall s : jsstring,
  length (slice_0_m1 s) = length s - 1.
Proof.
  intros s. destruct (snoc_cases s) as [->|[s' [c ->]]]; [reflexivity|].
  rewrite slice_snoc, length_app. cbn [length]. lia.
Qed.

(** X10: from any state whose buffer is a string, as many presses of DEL as
    the buffer has characters (or more, and at least one) lead to the initial
    state, whatever the display showed. *)
Theorem presses_DEL_to_init : forall e d n,
  length e <= n -> 0 < n ->
  presses (repeat (str "DEL") n) (mkState (VStr e) d) = init.
Proof.
  intros e d n. revert e d.
  induction n as [|n IH]; intros e d Hlen Hpos; [lia|].
  cbn [repeat presses fold_left]. fold (presses (repeat (str "DEL") n)).
  rewrite press_DEL. cbv zeta.
  set (e' := if nonempty e then slice_0_m1 e else e).
  assert (He' : length e' <= n).
  { unfold e'. destruct e as [|c e0]; cbn [nonempty]; [cbn; lia|].
    rewrite slice_length. cbn [length] in *. lia. }
  destruct n as [|n].
  - destruct e' as [|c e0]; [reflexivity|cbn [length] in He'; lia].
  - apply IH; [assumption|lia].
Qed.

Lemma presses_DEL_to_init_witness :
  presses (repeat (str "DEL") 5)
    (presses [str "1"; str "2"; [PLUS]; str "3"] init)
  = init.
Proof.
  apply (presses_DEL_to_init (str "12" ++ [PLUS] ++ str "3") (VStr (str "3")) 5).
  - cbn. lia.
  - lia.
Defined.

(** ** Keys that do nothing the second time *)

Lemma match_end_keeps_last : forall s,
  exists u, getCurrentNumber (s ++ [DOT]) = u ++ [DOT].
Proof.
  unfold getCurrentNumber. induction s as [|c s IH].
  - exists []. reflexivity.
  - cbn [app match_end].
    destruct (number_re (c :: s ++ [DOT])).
    + exists (c :: s). reflexivity.
    + exact IH.
Qed.

Lemma includes_last : forall u c, includes (u ++ [c]) [c] = true.
Proof.
  induction u as [|x u IH]; intros c.
  - cbn. rewrite N.eqb_refl. reflexivity.
  - cbn [app includes]. rewrite IH. apply orb_true_r.
Qed.

Lemma press_DOT_fixed : forall e d,
  includes (getCurrentNumber e) [DOT] = true ->
  press [DOT] (mkState (VStr e) d) = mkState (VStr e) d.
Proof. intros e d H. rewrite press_DOT, H. reflexivity. Qed.

(** X11: in every state a second press of the decimal point changes
    nothing: the first either is refused or ends the buffer with a point,
    and then the current number has one. *)
Theorem press_DOT_twice : forall st,
  press [DOT] (press [DOT] st) = press [DOT] st.
Proof.
  intros [[x|e] d]; [reflexivity|].
  rewrite press_DOT.
  destruct (includes (getCurrentNumber e) [DOT]) eqn:H.
  - apply press_DOT_fixed. exact H.
  - cbv zeta. apply press_DOT_fixed.
    assert (E : exists e0,
               e ++ (if nonempty e && ends_in_digit e then [DOT] else str "0.")
               = e0 ++ [DOT]).
    { destruct (nonempty e && ends_in_digit e).
      - exists e. reflexivity.
      - exists (e ++ [ZERO]). rewrite <- app_assoc. reflexivity. }
    destruct E as [e0 ->].
    destruct (match_end_keeps_last e0) as [u ->].
    apply includes_last.
Qed.

Lemma press_PERCENT_any : forall st,
  press [PERCENT] st
  = let text := match expr st with VStr e => e | VNum n => ToString n end in
    if ends_in_digit text
    then mkState (VStr (text ++ [PERCENT]))
           (VStr (tailDisplay (text ++ [PERCENT])))
    else st.
Proof. reflexivity. Qed.

(** X12: in every state a second press of the percent key changes nothing:
    after the first the buffer no longer ends in a digit. *)
Theorem press_PERCENT_twice : forall st,
  press [PERCENT] (press [PERCENT] st) = press [PERCENT] st.
Proof.
  intros st. rewrite (press_PERCENT_any st). cbv zeta.
  destruct (ends_in_digit _) eqn:H.
  - rewrite press_PERCENT. rewrite ends_in_digit_snoc. reflexivity.
  - rewrite press_PERCENT_any. cbv zeta. rewrite H. reflexivity.
Qed.

(** ** The newest operator wins *)

Lemma press_operator_replaces : forall k1 k2 e d,
  In k1 operator_keys -> In k2 operator_keys ->
  e <> [] -> no_double_dot e ->
  press k2 (press k1 (mkState (VStr e) d)) = press k2 (mkState (VStr e) d).
Proof.
  intros k1 k2 e d Hk1 Hk2 Hne Hdd.
  rewrite (press_operator k1 e d Hk1), (press_operator k2 e d Hk2).
  replace (nonempty e) with true
    by (symmetry; apply nonempty_true_iff; exact Hne).
  cbv zeta.
  destruct (operator_key_last k1 Hk1) as [c1 [-> _]].
  set (e1 := if isOp_at (at_m1 e) then slice_0_m1 e else e).
  set (e2 := if endsWith e1 DOT then slice_0_m1 e1 else e1).
  assert (H1 : no_double_dot e1).
  { unfold e1. destruct (isOp_at (at_m1 e)); auto with buffer. }
  assert (H2 : endsWith e2 DOT = false).
  { unfold e2. destruct (endsWith e1 DOT) eqn:E; [|exact E].
    apply no_double_dot_ends; assumption. }
  rewrite (press_operator k2 (e2 ++ [c1]) (VStr [c1]) Hk2).
  replace (nonempty (e2 ++ [c1])) with true
    by (symmetry; apply nonempty_true_iff; apply snoc_not_nil).
  cbv zeta.
  rewrite (isOp_at_operator e2 c1 Hk1), slice_snoc, H2.
  reflexivity.
Qed.

(** X13: in every state reached by presses of logical keys whose buffer is
    not empty, an operator key pressed right after another operator key
    leaves [expr] and [display] as if only the second had been pressed. *)
Theorem operator_supersedes : forall ks k1 k2,
  Forall (fun k => logical_key k = true) ks ->
  In k1 operator_keys -> In k2 operator_keys ->
  expr (presses ks init) <> VStr [] ->
  press k2 (press k1 (presses ks init)) = press k2 (presses ks init).
Proof.
  intros ks k1 k2 Hks Hk1 Hk2 Hne.
  destruct (presses_string_state ks init Hks string_state_init)
    as [e [d [E [_ Hdd]]]].
  rewrite E in *. cbn [expr] in Hne.
  apply press_operator_replaces; auto. congruence.
Qed.

Lemma operator_supersedes_witness :
  press [TIMES] (press [MINUS] (presses [str "4"; [DOT]] init))
  = press [TIMES] (presses [str "4"; [DOT]] init).
Proof.
  apply (operator_supersedes [str "4"; [DOT]] [MINUS] [TIMES]).
  - repeat constructor.
  - simpl. auto.
  - simpl. auto.
  - discriminate.
Defined.

(** ** Keys outside the alphabet that are ignored *)

Lemma isOp_first : forall c t, isOp [c] = false -> isOp (c :: t) = false.
Proof.
  intros c t H. rewrite isOp_char in H.
  repeat (apply orb_false_iff in H; destruct H as [H ?]).
  unfold isOp, OPS. cbn [includes startsWith].
  repeat match goal with E : N.eqb c _ = false |- _ => rewrite E; clear E end.
  reflexivity.
Qed.

Lemma digit_key_first : forall c t,
  digit_key (c :: t) = true -> is_digit c = true.
Proof.
  intros c t H. unfold digit_key in H. cbn [str_leb] in H.
  apply andb_true_iff in H. destruct H as [H1 H2].
  unfold is_digit. apply andb_true_iff. unfold ZERO, NINE in *. split.
  - apply N.leb_le. apply orb_true_iff in H1. destruct H1 as [H1|H1].
    + apply N.ltb_lt in H1. lia.
    + apply andb_true_iff in H1. destruct H1 as [H1 _].
      apply N.eqb_eq in H1. lia.
  - apply N.leb_le. apply orb_true_iff in H2. destruct H2 as [H2|H2].
    + apply N.ltb_lt in H2. lia.
    + apply andb_true_iff in H2. destruct H2 as [H2 _].
      apply N.eqb_eq in H2. lia.
Qed.

Lemma streq_false : forall a b, a <> b -> streq a b = false.
Proof.
  intros a b H. destruct (streq a b) eqn:E; [|reflexivity].
  apply streq_true_iff in E. contradiction.
Qed.

(** X14: a key whose first character is neither a digit nor an operator
    glyph, and which is none of "C", "DEL", "=", "." and "%", leaves [expr]
    and [display] as they are, in every state. *)
Theorem press_foreign_key : forall c t st,
  is_digit c = false -> isOp [c] = false ->
  c :: t <> str "C" -> c :: t <> str "DEL" -> c :: t <> str "=" ->
  c :: t <> [DOT] -> c :: t <> [PERCENT] ->
  press (c :: t) st = st.
Proof.
  intros c t st Hd Ho H1 H2 H3 H4 H5.
  apply press_unmatched_key; auto using streq_false, isOp_first.
  destruct (digit_key (c :: t)) eqn:E; [|reflexivity].
  apply digit_key_first in E. congruence.
Qed.

Lemma press_foreign_key_witness :
  press (str "Enter") (presses [str "1"; [PLUS]] init)
  = presses [str "1"; [PLUS]] init.
Proof.
  apply (press_foreign_key 69%N (str "nter") (presses [str "1"; [PLUS]] init));
    try reflexivity; discriminate.
Defined.

(** ** The keyboard *)

Lemma digit_char_logical : forall c,
  is_digit c = true -> logical_key [c] = true.
Proof.
  intros c H. unfold is_digit, ZERO, NINE in H.
  apply andb_true_iff in H. destruct H as [H1 H2].
  apply N.leb_le in H1. apply N.leb_le in H2.
  assert (E : (c = 48 \/ c = 49 \/ c = 50 \/ c = 51 \/ c = 52 \/ c = 53
               \/ c = 54 \/ c = 55 \/ c = 56 \/ c = 57)%N) by lia.
  repeat (destruct E as [E|E]; [subst c; reflexivity|]).
  subst c. reflexivity.
Qed.

(** X15: what the keyboard mapping passes on is a key of the logical
    alphabet, except that an event key of several characters that lies
    between "0" and "9" is passed on as it is; and it is never the empty
    string. *)
Theorem mapKey_range : forall k key,
  mapKey k = Some key ->
  key <> []
  /\ (logical_key key = true
      \/ (key = k /\ 1 < length k /\ digit_key k = true)).
Proof.
  intros k key H. unfold mapKey in H.
  destruct (digit_key k) eqn:D.
  { inversion H; subst key. destruct k as [|c t]; [discriminate D|].
    split; [discriminate|].
    destruct t as [|c' t'].
    - left. apply digit_char_logical. exact (digit_key_first c [] D).
    - right. split; [reflexivity|]. split; [cbn; lia|reflexivity]. }
  repeat match type of H with
         | (if ?b then _ else _) = _ =>
             destruct b;
             [inversion H; subst key; split; [discriminate|left; reflexivity]|]
         end.
  discriminate H.
Qed.

Lemma mapKey_range_witness :
  [TIMES] <> []
  /\ (logical_key [TIMES] = true
      \/ ([TIMES] = str "*" /\ 1 < length (str "*")
          /\ digit_key (str "*") = true)).
Proof. apply (mapKey_range (str "*") [TIMES]). reflexivity. Defined.

Lemma keydown_shows_text : forall k st,
  shows_text st -> shows_text (keydown k st).
Proof.
  intros k st H. unfold keydown.
  destruct (mapKey k) as [key|] eqn:E; [|exact H].
  destruct (nonempty key) eqn:N; [|exact H].
  apply press_shows_text; [|exact H].
  apply nonempty_true_iff. exact N.
Qed.

(** X16: whatever key events arrive, in whatever order, the keyboard
    listener leaves both globals strings and the display not empty. *)
Theorem keydowns_show_text : forall ks,
  shows_text (keydowns ks init).
Proof.
  intros ks. unfold keydowns.
  assert (H : forall st, shows_text st ->
                         shows_text (fold_left (fun s k => keydown k s) ks st)).
  { induction ks as [|k ks IH]; intros st Hst; [exact Hst|].
    cbn [fold_left]. apply IH. apply keydown_shows_text. exact Hst. }
  apply H. exists [], (str "0"). split; [reflexivity|discriminate].
Qed.

(** X17: after any finite sequence of presses of keys that are not the empty
    string, whether of the logical alphabet or not, both globals are strings
    and the display is not empty. *)
Theorem presses_show_text : forall ks,
  Forall (fun k => k <> []) ks -> shows_text (presses ks init).
Proof.
  intros ks Hks. unfold presses.
  assert (H : forall st, shows_text st ->
                         shows_text (fold_left (fun s k => press k s) ks st)).
  { induction Hks as [|k ks Hk Hks IH]; intros st Hst; [exact Hst|].
    cbn [fold_left]. apply IH. apply press_shows_text; assumption. }
  apply H. exists [], (str "0"). split; [reflexivity|discriminate].
Qed.

Lemma presses_show_text_witness :
  shows_text (presses [str "12"; [PLUS; MINUS]; str "abc"; str "="] init).
Proof.
  apply (presses_show_text [str "12"; [PLUS; MINUS]; str "abc"; str "="]).
  repeat constructor; discriminate.
Defined.

(** ** The current number and the display projection *)

Lemma match_end_suffix : forall re s, exists p, s = p ++ match_end re s.
Proof.
  intros re. induction s as [|c s IH].
  - exists []. cbn. destruct (re []); reflexivity.
  - cbn [match_end]. destruct (re (c :: s)).
    + exists []. reflexivity.
    + destruct IH as [p E]. exists (c :: p). cbn [app]. rewrite <- E.
      reflexivity.
Qed.

Lemma match_end_matches : forall re s,
  re [] = true -> re (match_end re s) = true.
Proof.
  intros re s H0. induction s as [|c s IH].
  - cbn. rewrite H0. exact H0.
  - cbn [match_end]. destruct (re (c :: s)) eqn:E; [exact E|exact IH].
Qed.

Lemma take_skip_digits : forall s,
  s = take_digits s ++ skip_digits s
  /\ forallb is_digit (take_digits s) = true.
Proof.
  induction s as [|c s [IH1 IH2]]; [split; reflexivity|].
  cbn [take_digits skip_digits]. destruct (is_digit c) eqn:D.
  - cbn [app forallb]. rewrite D, IH2. split; [f_equal; exact IH1|reflexivity].
  - split; reflexivity.
Qed.

Lemma skip_digits_head : forall s c r,
  skip_digits s = c :: r -> is_digit c = false.
Proof.
  induction s as [|x s IH]; intros c r H; [discriminate H|].
  cbn [skip_digits] in H. destruct (is_digit x) eqn:D; [eauto|].
  inversion H; subst. exact D.
Qed.

Lemma skip_digits_nil : forall s,
  skip_digits s = [] -> forallb is_digit s = true.
Proof.
  intros s H. destruct (take_skip_digits s) as [E F].
  rewrite H, app_nil_r in E. rewrite E. exact F.
Qed.

Lemma digits_no_dot : forall s,
  forallb is_digit s = true ->
  forallb is_digit_or_dot s = true /\ dots s = 0.
Proof.
  induction s as [|c s IH]; intros H; [split; reflexivity|].
  cbn [forallb] in H. apply andb_true_iff in H. destruct H as [Hc Hs].
  destruct (IH Hs) as [H1 H2]. split.
  - cbn [forallb]. unfold is_digit_or_dot at 1. rewrite Hc, H1. reflexivity.
  - rewrite dots_cons_other; [exact H2|].
    intros ->. discriminate Hc.
Qed.

Lemma number_re_shape : forall t,
  number_re t = true ->
  forallb is_digit_or_dot t = true /\ dots t <= 1.
Proof.
  intros t H. unfold number_re in H. apply negb_true_iff in H.
  destruct (take_skip_digits t) as [E F].
  destruct (digits_no_dot _ F) as [F1 F2].
  destruct (skip_digits t) as [|c r] eqn:R.
  - rewrite app_nil_r in E. rewrite E. split; [exact F1|lia].
  - pose proof (skip_digits_head t c r R) as Hc.
    cbn [skip_opt] in H. destruct (N.eqb_spec c DOT) as [->|Hne].
    + assert (Hr : skip_digits r = []).
      { destruct (skip_digits r); [reflexivity|discriminate H]. }
      destruct (digits_no_dot _ (skip_digits_nil r Hr)) as [G1 G2].
      rewrite E. split.
      * rewrite forallb_app. cbn [forallb]. rewrite F1, G1. reflexivity.
      * rewrite dots_app, F2.
        change (DOT :: r) with ([DOT] ++ r). rewrite dots_app, G2.
        change (dots [DOT]) with 1. lia.
    + cbn [skip_digits] in H. rewrite Hc in H. discriminate H.
Qed.

(** X18: the current number is an ending of the buffer made of digits and at
    most one point. *)
Theorem getCurrentNumber_shape : forall s,
  (exists p, s = p ++ getCurrentNumber s)
  /\ forallb is_digit_or_dot (getCurrentNumber s) = true
  /\ dots (getCurrentNumber s) <= 1.
Proof.
  intros s. unfold getCurrentNumber. split.
  - apply match_end_suffix.
  - apply number_re_shape. apply match_end_matches. reflexivity.
Qed.

(** X19: the current number is the longest such ending: no ending of the
    buffer that the pattern matches is longer. *)
Theorem getCurrentNumber_longest : forall p t,
  number_re t = true -> length t <= length (getCurrentNumber (p ++ t)).
Proof.
  intros p t H. unfold getCurrentNumber. induction p as [|c p IH].
  - cbn [app]. destruct t as [|x t]; cbn [match_end]; rewrite H; lia.
  - cbn [app match_end]. destruct (number_re (c :: p ++ t)); [|exact IH].
    cbn [length]. rewrite length_app. lia.
Qed.

Lemma getCurrentNumber_longest_witness :
  length (str "3.25") <= length (getCurrentNumber (str "10" ++ [PLUS] ++ str "3.25")).
Proof.
  apply (getCurrentNumber_longest (str "10" ++ [PLUS]) (str "3.25")).
  reflexivity.
Defined.

(** X20: what [tailDisplay] shows is an ending of its argument, empty
    exactly when the argument is. *)
Theorem tailDisplay_suffix : forall s,
  (exists p, s = p ++ tailDisplay s)
  /\ nonempty (tailDisplay s) = nonempty s.
Proof.
  intros s. split.
  - unfold tailDisplay.
    assert (H : exists p,
               s = p ++ (if nonempty (match_end number_percent_re s)
                         then match_end number_percent_re s else s)).
    { destruct (nonempty (match_end number_percent_re s)).
      - apply match_end_suffix.
      - exists []. reflexivity. }
    destruct (snoc_cases s) as [->|[s0 [c ->]]]; [exact H|].
    rewrite at_m1_snoc.
    destruct (isOp [c] || N.eqb c PERCENT); [|exact H].
    exists s0. reflexivity.
  - destruct s as [|c s]; [reflexivity|].
    apply nonempty_true_iff. apply tailDisplay_not_nil. discriminate.
Qed.

(** ** The grammar of the buffer *)

Lemma buffer_ok_snoc : forall e c,
  buffer_ok (e ++ [c]) = follows (at_m1 e) c && buffer_ok e.
Proof. intros e c. unfold buffer_ok. rewrite rev_unit. reflexivity. Qed.

Lemma buffer_ok_slice : forall e,
  buffer_ok e = true -> buffer_ok (slice_0_m1 e) = true.
Proof.
  intros e H. destruct (snoc_cases e) as [->|[e0 [c ->]]]; [exact H|].
  rewrite slice_snoc. rewrite buffer_ok_snoc in H.
  apply andb_true_iff in H. apply H.
Qed.

Lemma follows_digit : forall prev c, is_digit c = true -> follows prev c = true.
Proof. intros prev c H. unfold follows. rewrite H. reflexivity. Qed.

Lemma digit_key_char : forall k,
  In k digit_keys -> exists c, k = [c] /\ is_digit c = true.
Proof.
  intros k H.
  each_key H; subst k; eexists; (split; [reflexivity|reflexivity]).
Qed.

Lemma operator_char : forall c,
  In [c] operator_keys ->
  forall prev, follows prev c
               = match prev with
                 | Some p => is_digit p || N.eqb p PERCENT
                 | None => false
                 end.
Proof. intros c H prev. each_key H; inversion H; reflexivity. Qed.

Lemma isOp_char_class : forall c,
  isOp [c] = true ->
  is_digit c = false /\ N.eqb c DOT = false /\ N.eqb c PERCENT = false.
Proof.
  intros c H. rewrite isOp_char in H.
  repeat (apply orb_true_iff in H; destruct H as [H|H]);
    apply N.eqb_eq in H; subst c; repeat split.
Qed.

(** Where an operator is about to be appended the buffer ends in a digit or
    a percent sign. *)
Lemma operator_base : forall e,
  buffer_ok e = true -> e <> [] ->
  let e1 := if isOp_at (at_m1 e) then slice_0_m1 e else e in
  let e2 := if endsWith e1 DOT then slice_0_m1 e1 else e1 in
  buffer_ok e2 = true
  /\ exists p, at_m1 e2 = Some p /\ is_digit p || N.eqb p PERCENT = true.
Proof.
  intros e Hok Hne.
  destruct (snoc_cases e) as [->|[e0 [x ->]]]; [congruence|].
  rewrite buffer_ok_snoc in Hok. apply andb_true_iff in Hok.
  destruct Hok as [Hx H0]. rewrite at_m1_snoc. cbn [isOp_at].
  destruct (isOp [x]) eqn:O.
  - destruct (isOp_char_class x O) as [D [P1 P2]].
    unfold follows in Hx. rewrite D, P1, P2, O in Hx.
    rewrite slice_snoc. cbv zeta.
    destruct (snoc_cases e0) as [->|[e00 [p ->]]]; [discriminate Hx|].
    rewrite at_m1_snoc in Hx. rewrite endsWith_snoc.
    assert (Hp : N.eqb p DOT = false).
    { destruct (N.eqb_spec p DOT) as [->|]; [discriminate Hx|reflexivity]. }
    rewrite Hp. split; [exact H0|].
    exists p. rewrite at_m1_snoc. auto.
  - cbv zeta. rewrite endsWith_snoc.
    destruct (N.eqb x DOT) eqn:P1.
    + rewrite slice_snoc. split; [exact H0|].
      unfold follows in Hx.
      assert (D : is_digit x = false).
      { apply N.eqb_eq in P1. subst x. reflexivity. }
      rewrite D, P1 in Hx.
      destruct (at_m1 e0) as [p|]; [|discriminate Hx].
      exists p. rewrite Hx. auto.
    + split.
      * rewrite buffer_ok_snoc, Hx, H0. reflexivity.
      * exists x. rewrite at_m1_snoc. split; [reflexivity|].
        unfold follows in Hx. rewrite P1, O in Hx.
        destruct (is_digit x); [reflexivity|].
        destruct (N.eqb x PERCENT); [reflexivity|discriminate Hx].
Qed.

Lemma press_edit_state : forall k st,
  In k logical_keys -> k <> str "=" ->
  edit_state st -> edit_state (press k st).
Proof.
  intros k [ex dx] Hk Hneq [e [He Hok]]. cbn [expr] in He. subst ex.
  assert (Hst : edit_state (mkState (VStr e) dx))
    by (exists e; split; [reflexivity|exact Hok]).
  assert (Hsnoc : forall e0 c d0,
             buffer_ok e0 = true -> follows (at_m1 e0) c = true ->
             edit_state (mkState (VStr (e0 ++ [c])) d0)).
  { intros e0 c d0 H0 Hc. exists (e0 ++ [c]). split; [reflexivity|].
    rewrite buffer_ok_snoc, Hc, H0. reflexivity. }
  apply logical_key_classes in Hk.
  destruct Hk as [Hk|[Hk|[Hk|[Hk|[Hk|[Hk|Hk]]]]]].
  - rewrite (press_digit k e dx Hk). cbv zeta.
    destruct (digit_key_char k Hk) as [c [-> Hc]].
    destruct (endsWith e ZERO && _ && _); apply Hsnoc;
      auto using buffer_ok_slice, follows_digit.
  - subst k. rewrite press_DOT.
    destruct (includes (getCurrentNumber e) [DOT]); [exact Hst|].
    cbv zeta. destruct (nonempty e && ends_in_digit e) eqn:E.
    + apply andb_true_iff in E. destruct E as [_ E].
      apply Hsnoc; [exact Hok|exact E].
    + change (e ++ str "0.") with (e ++ [ZERO] ++ [DOT]).
      rewrite app_assoc. apply Hsnoc.
      * rewrite buffer_ok_snoc, Hok. reflexivity.
      * rewrite at_m1_snoc. reflexivity.
  - rewrite (press_operator k e dx Hk).
    destruct (nonempty e) eqn:Ne.
    + cbv zeta. destruct (operator_key_last k Hk) as [c [-> _]].
      apply nonempty_true_iff in Ne.
      destruct (operator_base e Hok Ne) as [H2 [p [Hp1 Hp2]]].
      apply Hsnoc; [exact H2|].
      rewrite (operator_char c Hk), Hp1. exact Hp2.
    + destruct (streq k [MINUS]); [|exact Hst].
      exists ([ZERO] ++ [MINUS]). split; reflexivity.
  - subst k. rewrite press_PERCENT.
    destruct (ends_in_digit e) eqn:E; [|exact Hst].
    apply Hsnoc; [exact Hok|exact E].
  - contradiction.
  - subst k. rewrite press_C. exists []. split; reflexivity.
  - subst k. rewrite press_DEL. cbv zeta.
    eexists. split; [reflexivity|].
    destruct (nonempty e); auto using buffer_ok_slice.
Qed.

(** X21: after any finite sequence of presses of logical keys other than
    the evaluate key, the buffer holds only digits, points, percent signs
    and operator glyphs, starts with a digit, and in it every point and
    every percent sign directly follows a digit and every operator glyph
    directly follows a digit or a percent sign. *)
Theorem buffer_grammar : forall ks,
  Forall (fun k => logical_key k = true /\ k <> str "=") ks ->
  exists e, expr (presses ks init) = VStr e /\ buffer_ok e = true.
Proof.
  intros ks Hks. unfold presses.
  assert (H : forall st, edit_state st ->
                edit_state (fold_left (fun s k => press k s) ks st)).
  { induction Hks as [|k ks [Hk Hne] Hks IH]; intros st Hst; [exact Hst|].
    cbn [fold_left]. apply IH.
    apply press_edit_state; auto using logical_key_In. }
  apply H. exists []. split; reflexivity.
Qed.

Lemma buffer_grammar_witness :
  exists e,
    expr (presses [[MINUS]; str "5"; [DOT]; [TIMES]; [DOT]; str "%";
                   str "2"; str "%"; [PLUS]; str "DEL"] init) = VStr e
    /\ buffer_ok e = true.
Proof.
  apply (buffer_grammar [[MINUS]; str "5"; [DOT]; [TIMES]; [DOT]; str "%";
                         str "2"; str "%"; [PLUS]; str "DEL"]).
  repeat constructor; discriminate.
Defined.

(** The grammar is no formality: it refuses what the keys cannot produce. *)
Lemma buffer_ok_examples :
  buffer_ok (str "0" ++ [MINUS] ++ str "5.2%" ++ [TIMES] ++ str "3") = true
  /\ buffer_ok ([PLUS] ++ str "1") = false
  /\ buffer_ok (str "1" ++ [PLUS; TIMES]) = false
  /\ buffer_ok (str "1..") = false
  /\ buffer_ok (str ".5") = false
  /\ buffer_ok (str "1" ++ [PLUS] ++ str "%") = false
  /\ buffer_ok (str "-3") = false.
Proof. repeat split. Qed.

(** ** The result of [compute] *)

(** X22: on a non-empty string [compute] returns a string, never a number;
    the string is not empty and holds at most one decimal point. *)
Theorem compute_result_shape : forall a,
  a <> [] ->
  exists r, compute (VStr a) = VStr r /\ r <> [] /\ dots r <= 1.
Proof.
  intros a Ha.
  destruct (compute_of_string a Ha) as [E|[x E]]; rewrite E.
  - exists Err. split; [reflexivity|]. split; [discriminate|].
    change (dots Err) with 0. lia.
  - exists (ToString x). split; [reflexivity|]. apply ToString_shape.
Qed.

Lemma compute_result_shape_witness :
  exists r,
    compute (VStr (str "1" ++ [DIVIDE] ++ str "3")) = VStr r
    /\ r <> [] /\ dots r <= 1.
Proof.
  apply (compute_result_shape (str "1" ++ [DIVIDE] ++ str "3")).
  discriminate.
Defined.

(** ** What the tokenizer drops, and what it never drops *)

Lemma filter_all : forall (f : char -> bool) (l : jsstring),
  forallb f l = true -> filter f l = l.
Proof.
  intros f. induction l as [|c l IH]; intros H; [reflexivity|].
  cbn [forallb] in H. apply andb_true_iff in H. destruct H as [Hc Hl].
  cbn [filter]. rewrite Hc, (IH Hl). reflexivity.
Qed.

Lemma follows_token_char : forall prev c,
  follows prev c = true -> token_char c = true.
Proof.
  intros prev c H. unfold follows in H. unfold token_char, is_digit_or_dot.
  destruct (is_digit c); [reflexivity|].
  destruct (N.eqb c DOT); [reflexivity|].
  destruct (N.eqb c PERCENT); [apply orb_true_r|].
  destruct (isOp [c]); [reflexivity|discriminate H].
Qed.

Lemma chained_token_chars : forall r,
  chained r = true -> forallb token_char r = true.
Proof.
  induction r as [|c r IH]; intros H; [reflexivity|].
  cbn [chained] in H. apply andb_true_iff in H. destruct H as [Hc Hr].
  cbn [forallb]. rewrite (follows_token_char _ c Hc), (IH Hr). reflexivity.
Qed.

Lemma buffer_ok_token_chars : forall e,
  buffer_ok e = true -> forallb token_char e = true.
Proof.
  intros e H. apply chained_token_chars in H.
  apply forallb_forall. intros c Hc.
  rewrite forallb_forall in H. apply H. apply in_rev in Hc. exact Hc.
Qed.

(** X23: while the buffer is only edited (no evaluate key), the tokenizer
    loses nothing of it: the tokens, joined, are the buffer. *)
Theorem tokenize_keeps_buffer : forall ks,
  Forall (fun k => logical_key k = true /\ k <> str "=") ks ->
  exists e,
    expr (presses ks init) = VStr e /\ concat (tokenize e) = e.
Proof.
  intros ks Hks. unfold presses.
  assert (H : forall st, edit_state st ->
                edit_state (fold_left (fun s k => press k s) ks st)).
  { induction Hks as [|k ks [Hk Hne] Hks IH]; intros st Hst; [exact Hst|].
    cbn [fold_left]. apply IH.
    apply press_edit_state; auto using logical_key_In. }
  destruct (H init) as [e [He Hok]]; [exists []; split; reflexivity|].
  exists e. split; [exact He|].
  rewrite tokenize_joined.
  apply filter_all. apply buffer_ok_token_chars. exact Hok.
Qed.

Lemma tokenize_keeps_buffer_witness :
  exists e,
    expr (presses [str "7"; [DOT]; str "5"; [DIVIDE]; str "2"; str "%"] init)
    = VStr e
    /\ concat (tokenize e) = e.
Proof.
  apply (tokenize_keeps_buffer
           [str "7"; [DOT]; str "5"; [DIVIDE]; str "2"; str "%"]).
  repeat constructor; discriminate.
Defined.

(** X24: [compute] reads only the digits, points, operator glyphs and
    percent signs of its input; as long as there is one, every other
    character (the sign or the exponent that [String] writes, for instance)
    is as good as absent. *)
Theorem compute_ignores_foreign : forall s,
  filter token_char s <> [] ->
  compute (VStr s) = compute (VStr (filter token_char s)).
Proof.
  intros s H.
  assert (Hs : nonempty s = true).
  { destruct s; [contradiction H; reflexivity|reflexivity]. }
  apply nonempty_true_iff in H.
  unfold compute. cbn [truthy tokenize_value]. rewrite Hs, H.
  unfold tokenize. rewrite tokenize_loop_filter. reflexivity.
Qed.

Lemma compute_ignores_foreign_witness :
  compute (VStr (str "-1.5e+21")) = compute (VStr (str "1.521")).
Proof.
  apply (compute_ignores_foreign (str "-1.5e+21")). discriminate.
Defined.

(** ** An expression left with a dangling operator *)

Lemma separated_terms_before : forall ts rest,
  terms_ok ts = true -> separated rest = true -> symbol_first rest ->
  separated (terms_tokens ts ++ rest) = true
  /\ symbol_first (terms_tokens ts ++ rest).
Proof.
  induction ts as [|[o t] ts IH]; intros rest Hok Hr Hs; [auto|].
  cbn [terms_ok forallb snd] in Hok.
  apply andb_true_iff in Hok. destruct Hok as [Ht Hts].
  destruct (IH rest Hts Hr Hs) as [H1 H2].
  unfold terms_tokens in *. cbn [flat_map fst snd].
  rewrite <- app_assoc. cbn [app]. split.
  - apply separated_symbol; [destruct o; reflexivity|].
    apply separated_term; assumption.
  - destruct o; reflexivity.
Qed.

Lemma separated_expression_before : forall e rest,
  expression_ok e = true -> separated rest = true -> symbol_first rest ->
  separated (expression_tokens e ++ rest) = true.
Proof.
  intros [t ts] rest Hok Hr Hs. unfold expression_ok in Hok.
  cbn [fst snd] in Hok. apply andb_true_iff in Hok. destruct Hok as [Ht Hts].
  destruct (separated_terms_before ts rest Hts Hr Hs) as [H1 H2].
  unfold expression_tokens. cbn [fst snd]. rewrite <- app_assoc.
  apply separated_term; assumption.
Qed.

Lemma high_all_low : forall K, forallb high K = true -> forallb low K = true.
Proof.
  induction K as [|k K IH]; intros H; [reflexivity|].
  cbn [forallb] in *. apply andb_true_iff in H. destruct H as [Hk HK].
  rewrite (high_low k Hk), (IH HK). reflexivity.
Qed.

(** The converter's state after the last token of an expression: above an
    additive operator, if one is waiting, the operators of the last term. *)
Lemma toRPN_loop_expression : forall e,
  expression_ok e = true ->
  exists (out : list value) (K B : list jsstring) (tv : float) (S : list float),
    fold_left toRPN_step (expression_tokens e) ([], []) = (out, K ++ B)
    /\ forallb high K = true
    /\ evalRPN_loop (out ++ map VStr K) [] = Some (tv :: S)
    /\ ((B = [] /\ S = []) \/ exists a s, B = [addop_token a] /\ S = [s]).
Proof.
  intros [t ts] Hok. unfold expression_ok in Hok. cbn [fst snd] in Hok.
  apply andb_true_iff in Hok. destruct Hok as [Ht Hts].
  unfold expression_tokens. cbn [fst snd]. rewrite fold_left_app.
  destruct (toRPN_loop_term t [] [] [] I eq_refl Ht)
    as [out1 [K1 [E1 [HK1 HE1]]]].
  rewrite E1.
  destruct ts as [|x ts0] using rev_ind.
  - cbn [terms_tokens flat_map fold_left].
    exists out1, K1, [], (term_value t), []. repeat split; auto.
  - clear IHts0. destruct x as [a t2].
    unfold terms_ok in Hts. rewrite forallb_app in Hts.
    apply andb_true_iff in Hts. destruct Hts as [Hts0 Ht2].
    cbn [forallb snd] in Ht2. rewrite andb_true_r in Ht2.
    unfold terms_tokens. rewrite flat_map_app. cbn [flat_map fst snd].
    rewrite app_nil_r, fold_left_app. rewrite app_nil_r.
    destruct (toRPN_loop_terms ts0 out1 K1 (term_value t))
      as [out2 [op2 [E2 [Hop2 HE2]]]]; auto using high_all_low.
    fold (terms_tokens ts0). rewrite E2. cbn [fold_left].
    rewrite (toRPN_step_addop a out2 op2 Hop2).
    destruct (toRPN_loop_term t2 (out2 ++ map VStr op2) [addop_token a]
                [terms_value ts0 (term_value t)])
      as [out3 [K3 [E3 [HK3 HE3]]]]; auto.
    { destruct a; reflexivity. }
    exists out3, K3, [addop_token a], (term_value t2),
           [terms_value ts0 (term_value t)].
    repeat split; auto. right. eauto.
Qed.

Lemma operator_key_kinds : forall o,
  In o operator_keys ->
  (exists a, o = addop_token a) \/ (exists m, o = mulop_token m).
Proof.
  intros o H. each_key H; subst o.
  - left. exists Add. reflexivity.
  - left. exists Sub. reflexivity.
  - right. exists Mul. reflexivity.
  - right. exists Div. reflexivity.
Qed.

Lemma dangling_operator_rpn : forall e o,
  expression_ok e = true -> In o operator_keys ->
  evalRPN (toRPN (expression_tokens e ++ [o])) = nan.
Proof.
  intros e o Hok Ho.
  destruct (toRPN_loop_expression e Hok)
    as [out [K [B [tv [S [E [HK [HE HB]]]]]]]].
  rewrite toRPN_flush, fold_left_app, E. cbn [fold_left].
  unfold evalRPN.
  destruct (operator_key_kinds o Ho) as [[a ->]|[m ->]].
  - rewrite toRPN_step_addop.
    + unfold flush. cbn [fst snd map]. rewrite map_app, !app_assoc.
      rewrite evalRPN_loop_app, evalRPN_loop_app, HE.
      destruct HB as [[-> ->]|[a' [s [-> ->]]]].
      * destruct a; reflexivity.
      * destruct a, a'; reflexivity.
    + rewrite forallb_app, (high_all_low K HK).
      destruct HB as [[-> _]|[a' [s [-> _]]]]; [reflexivity|].
      destruct a'; reflexivity.
  - rewrite (toRPN_step_mulop m out K B HK).
    + unfold flush. cbn [fst snd map].
      change (VStr (mulop_token m) :: map VStr B)
        with ([VStr (mulop_token m)] ++ map VStr B).
      rewrite !app_assoc.
      rewrite evalRPN_loop_app, evalRPN_loop_app, HE.
      destruct HB as [[-> ->]|[a' [s [-> ->]]]].
      * destruct m; reflexivity.
      * rewrite evalRPN_loop_mulop. destruct a'; reflexivity.
    + destruct HB as [[-> _]|[a' [s [-> _]]]]; [exact I|].
      destruct a'; reflexivity.
Qed.

(** X25: the text of a well-formed expression followed by one more operator
    glyph, with no operand after it, evaluates to "Err". *)
Theorem compute_dangling_operator : forall e o,
  expression_ok e = true -> In o operator_keys ->
  compute (VStr (expression_text e ++ o)) = VStr Err.
Proof.
  intros e o Hok Ho.
  assert (Htext : expression_text e ++ o = concat (expression_tokens e ++ [o])).
  { unfold expression_text. rewrite concat_app. cbn [concat].
    rewrite app_nil_r. reflexivity. }
  assert (Hne : nonempty (expression_text e ++ o) = true).
  { pose proof (expression_text_nonempty e Hok) as H.
    destruct (expression_text e); [discriminate H|reflexivity]. }
  unfold compute. cbn [truthy tokenize_value]. rewrite Hne. cbn [negb].
  cbv zeta. rewrite Htext.
  rewrite tokenize_separated.
  - rewrite (dangling_operator_rpn e o Hok Ho). reflexivity.
  - apply separated_expression_before; [exact Hok| |].
    + each_key Ho; subst o; reflexivity.
    + each_key Ho; subst o; reflexivity.
Qed.

Lemma compute_dangling_operator_witness :
  compute (VStr (str "1" ++ [PLUS] ++ str "2" ++ [TIMES])) = VStr Err.
Proof.
  apply (compute_dangling_operator
           ((mkFactor (str "1") 0, []), [(Add, (mkFactor (str "2") 0, []))])
           [TIMES]).
  - vm_compute. reflexivity.
  - simpl. auto.
Defined.

(** ** The shape of a token *)

(** X26: every token the tokenizer returns is a non-empty run of digits and
    points, or a single operator glyph, or a single percent sign. *)
Theorem tokenize_token_shapes : forall s, Forall token_shape (tokenize s).
Proof.
  intros s. unfold tokenize.
  destruct (tokenize_loop_shape s [] [] (Forall_nil _) (Forall_nil _))
    as [Ht Hb].
  destruct (fold_left tokenize_step s ([], [])) as [tokens buf].
  simpl in Ht, Hb.
  destruct (nonempty buf) eqn:N; [|assumption].
  apply Forall_app. split; [assumption|].
  constructor; [|constructor].
  left. split; [apply nonempty_true_iff; exact N|assumption].
Qed.
